(** * The shipyard API client ([client/client.go]) in Rocq

    A shallow embedding of the [Manager] type of package [client]: the
    request pipeline [doRequest] and the operations built on it, together
    with the parts of the Go standard library the client calls ([fmt],
    [errors], [io/ioutil], [net/http], [encoding/json]).

    Conventions
    - a Go [string] is a [string]; a [[]byte] is a [list byte], the nil
      slice and the empty slice both being [[]];
    - a pointer [*T] is a [ptr T], nil being [None]; dereferencing nil
      panics;
    - a Go [error] is an [option error], nil being [None]; a function with
      results [(x, err)] returns a pair;
    - an [int] is a [Z];
    - a slice whose nil-ness is observable is a [slice T];
    - a method of [*Manager] is a computation in the monad [M], whose state
      [World] holds the receiver and the requests sent so far. *)

From Stdlib Require Import ZArith List String Ascii Bool Lia DecimalString.
From Stdlib.Strings Require Import Byte.
Import ListNotations.
Local Open Scope string_scope.
Local Open Scope Z_scope.

Set Implicit Arguments.

(** ** Go values *)

Definition bytes := list byte.

Definition ptr (T : Type) := option T.

Inductive slice (T : Type) : Type :=
| nil_slice
| mk_slice (elems : list T).
Arguments nil_slice {T}.

(** [len(s)] *)
Definition len {T : Type} (s : slice T) : Z :=
  match s with
  | nil_slice => 0
  | mk_slice l => Z.of_nat (List.length l)
  end.

(** [s == nil] *)
Definition is_nil {T : Type} (s : slice T) : bool :=
  match s with
  | nil_slice => true
  | mk_slice _ => false
  end.

(** Error values.  [ErrUnauthorized] is the package-level sentinel of
    package [shipyard]; [errors_New s] is the value of [errors.New(s)], the
    error whose text is [s].  The other constructors are the errors of the
    collaborators: the ones [encoding/json] and [io] produce, and [foreign]
    for whatever [net/http] or a body reader reports. *)
Inductive error : Type :=
| ErrUnauthorized
| errors_New (text : string)
| io_EOF
| io_ErrUnexpectedEOF
| json_SyntaxError
| json_UnmarshalTypeError (value : string)
| foreign (text : string).

(** ** Package [fmt] *)

Inductive operand : Type :=
| a_string (s : string)
| a_int (z : Z)
| a_bool (b : bool).

(** [%d] of an [int] *)
Definition itoa (z : Z) : string := NilZero.string_of_int (Z.to_int z).

Definition operand_type (a : operand) : string :=
  match a with
  | a_string _ => "string"
  | a_int _ => "int"
  | a_bool _ => "bool"
  end.

(** [%v] *)
Definition operand_default (a : operand) : string :=
  match a with
  | a_string s => s
  | a_int z => itoa z
  | a_bool b => if b then "true" else "false"
  end.

(** One verb applied to one operand.  Of the verbs of [fmt] these are
    [%v], [%s], [%d] and [%t], which cover the formats of the client; a verb
    that does not fit its operand prints as [%!verb(type=value)]. *)
Definition format_operand (verb : ascii) (a : operand) : string :=
  let bad := "%!" ++ String verb ("(" ++ operand_type a ++ "=" ++ operand_default a ++ ")") in
  if Ascii.eqb verb "v" then operand_default a
  else if Ascii.eqb verb "s" then
    match a with a_string s => s | _ => bad end
  else if Ascii.eqb verb "d" then
    match a with a_int z => itoa z | _ => bad end
  else if Ascii.eqb verb "t" then
    match a with a_bool _ => operand_default a | _ => bad end
  else bad.

(** Operands left over when the format is exhausted. *)
Definition extra_operands (args : list operand) : string :=
  match args with
  | [] => ""
  | a :: rest =>
      "%!(EXTRA " ++ operand_type a ++ "=" ++ operand_default a
      ++ concat "" (map (fun x => ", " ++ operand_type x ++ "=" ++ operand_default x) rest)
      ++ ")"
  end.

(** [fmt.Sprintf(format, args...)] for formats without flags or widths. *)
Fixpoint Sprintf (format : string) (args : list operand) : string :=
  match format with
  | EmptyString => extra_operands args
  | String c tail =>
      if Ascii.eqb c "%" then
        match tail with
        | EmptyString => "%!(NOVERB)" ++ extra_operands args
        | String verb format' =>
            if Ascii.eqb verb "%" then String "%" (Sprintf format' args)
            else
              match args with
              | [] => "%!" ++ String verb ("(MISSING)" ++ Sprintf format' [])
              | a :: rest => format_operand verb a ++ Sprintf format' rest
              end
        end
      else String c (Sprintf tail args)
  end.

(** ** Package [io]: readers *)

(** A response body: the bytes still to be read and how the stream ends
    after them, [None] for a clean end of file and [Some e] for a read that
    fails with [e]. *)
Record Reader : Type := mkReader {
  pending : bytes;
  fault : option error
}.

(** The reader once everything up to its end has been consumed. *)
Definition drained (r : Reader) : Reader :=
  {| pending := []; fault := fault r |}.

(** [ioutil.ReadAll(r)]: the bytes read until the end of file or the first
    error, that error (nil at end of file), and the reader afterwards. *)
Definition ioutil_ReadAll (r : Reader) : bytes * option error * Reader :=
  (pending r, fault r, drained r).

(** ** Package [net/http] *)

Record Request : Type := mkRequest {
  Method : string;
  URL : string;
  Header : list (string * string);
  ReqBody : bytes
}.

Record Response : Type := mkResponse {
  StatusCode : Z;
  Body : Reader
}.

(** [req.Header.Add(key, value)]; the keys the client uses are already in
    canonical form. *)
Definition Header_Add (req : Request) (key value : string) : Request :=
  {| Method := Method req;
     URL := URL req;
     Header := Header req ++ [(key, value)];
     ReqBody := ReqBody req |}.

(** The network and the request validation of [net/http], which the client
    treats as given: [NewRequest_check method url] is the error
    [http.NewRequest] reports for a method or URL it rejects, and
    [RoundTrip sent req] is what [http.DefaultClient.Do(req)] yields when
    the requests [sent] went out before. *)
Class Transport : Type := {
  NewRequest_check : string -> string -> option error;
  RoundTrip : list Request -> Request -> Response + error
}.

(** [http.NewRequest(method, url, body)] *)
Definition http_NewRequest `{Transport} (method url : string) (body : bytes)
  : Request + error :=
  match NewRequest_check method url with
  | Some err => inr err
  | None => inl {| Method := method; URL := url; Header := []; ReqBody := body |}
  end.

(** ** Package [encoding/json]: reading a value *)

(** A JSON value as the scanner delimits it.  A number keeps its literal
    and a string the bytes between its quotes, escapes included. *)
#[local] Unset Elimination Schemes.
Inductive JSON : Type :=
| JNull
| JBool (b : bool)
| JNumber (literal : bytes)
| JString (raw : bytes)
| JArray (elems : list JSON)
| JObject (members : list (bytes * JSON)).
#[local] Set Elimination Schemes.

(** The outcome of scanning a prefix of the input: a value and the input
    after it, the input ending inside the value, or a byte the grammar
    does not allow.  [scan_fuel] is the recursion bound running out (see
    [scan_value_fuel]: it never does). *)
Inductive scan (A : Type) : Type :=
| scanned (a : A) (rest : bytes)
| scan_more
| scan_invalid
| scan_fuel.
Arguments scan_more {A}.
Arguments scan_invalid {A}.
Arguments scan_fuel {A}.

Definition code (c : byte) : N := Byte.to_N c.

Definition quote : byte := x22.
Definition backslash : byte := x5c.

Definition isSpace (c : byte) : bool :=
  Byte.eqb c " " || Byte.eqb c x09 || Byte.eqb c x0d || Byte.eqb c x0a.

Definition isDigit (c : byte) : bool :=
  ((48 <=? code c) && (code c <=? 57))%N.

Definition isHex (c : byte) : bool :=
  (isDigit c
   || ((97 <=? code c) && (code c <=? 102))
   || ((65 <=? code c) && (code c <=? 70)))%N.

Fixpoint skip_space (s : bytes) : bytes :=
  match s with
  | c :: s' => if isSpace c then skip_space s' else s
  | [] => []
  end.

(** The rest of a literal ([true], [false], [null]) after its first byte. *)
Fixpoint scan_literal (lit s : bytes) : scan unit :=
  match lit with
  | [] => scanned tt s
  | c :: lit' =>
      match s with
      | [] => scan_more
      | d :: s' => if Byte.eqb c d then scan_literal lit' s' else scan_invalid
      end
  end.

(** The states of the scanner inside a number. *)
Inductive numstate : Type :=
| stateNeg | state0 | state1 | stateDot | stateDot0 | stateE | stateESign | stateE0.

(** The number whose bytes read so far are [acc] (latest first).  A number
    ends before the first byte that cannot continue it, or with the input. *)
Fixpoint scan_number (st : numstate) (acc s : bytes) : scan bytes :=
  match s with
  | [] =>
      match st with
      | state0 | state1 | stateDot0 | stateE0 => scanned (rev acc) []
      | _ => scan_more
      end
  | c :: s' =>
      let isE := Byte.eqb c "e" || Byte.eqb c "E" in
      match st with
      | stateNeg =>
          if Byte.eqb c "0" then scan_number state0 (c :: acc) s'
          else if isDigit c then scan_number state1 (c :: acc) s'
          else scan_invalid
      | state1 =>
          if isDigit c then scan_number state1 (c :: acc) s'
          else if Byte.eqb c "." then scan_number stateDot (c :: acc) s'
          else if isE then scan_number stateE (c :: acc) s'
          else scanned (rev acc) s
      | state0 =>
          if Byte.eqb c "." then scan_number stateDot (c :: acc) s'
          else if isE then scan_number stateE (c :: acc) s'
          else scanned (rev acc) s
      | stateDot =>
          if isDigit c then scan_number stateDot0 (c :: acc) s'
          else scan_invalid
      | stateDot0 =>
          if isDigit c then scan_number stateDot0 (c :: acc) s'
          else if isE then scan_number stateE (c :: acc) s'
          else scanned (rev acc) s
      | stateE =>
          if Byte.eqb c "+" || Byte.eqb c "-" then scan_number stateESign (c :: acc) s'
          else if isDigit c then scan_number stateE0 (c :: acc) s'
          else scan_invalid
      | stateESign =>
          if isDigit c then scan_number stateE0 (c :: acc) s'
          else scan_invalid
      | stateE0 =>
          if isDigit c then scan_number stateE0 (c :: acc) s'
          else scanned (rev acc) s
      end
  end.

Definition isSimpleEscape (c : byte) : bool :=
  Byte.eqb c "b" || Byte.eqb c "f" || Byte.eqb c "n" || Byte.eqb c "r"
  || Byte.eqb c "t" || Byte.eqb c backslash || Byte.eqb c "/" || Byte.eqb c quote.

(** The four hexadecimal digits of a [\u] escape. *)
Definition scan_u4 (s : bytes) : scan bytes :=
  match s with
  | a :: b :: c :: d :: s' =>
      if isHex a && isHex b && isHex c && isHex d then scanned [a; b; c; d] s'
      else scan_invalid
  | _ => if forallb isHex s then scan_more else scan_invalid
  end.

(** A string after its opening quote; [acc] holds the bytes read so far,
    latest first. *)
Fixpoint scan_string (acc s : bytes) : scan bytes :=
  match s with
  | [] => scan_more
  | c :: s' =>
      if Byte.eqb c quote then scanned (rev acc) s'
      else if Byte.eqb c backslash then
        match s' with
        | [] => scan_more
        | e :: s'' =>
            if isSimpleEscape e then scan_string (e :: c :: acc) s''
            else if Byte.eqb e "u" then
              match s'' with
              | h1 :: h2 :: h3 :: h4 :: s3 =>
                  if isHex h1 && isHex h2 && isHex h3 && isHex h4
                  then scan_string (h4 :: h3 :: h2 :: h1 :: e :: c :: acc) s3
                  else scan_invalid
              | _ => if forallb isHex s'' then scan_more else scan_invalid
              end
            else scan_invalid
        end
      else if (code c <? 32)%N then scan_invalid
      else scan_string (c :: acc) s'
  end.

(** The next value of the input, leading space skipped; elements of an
    array after its opening bracket; members of an object after its opening
    brace.  [fuel] bounds the recursion. *)
Fixpoint scan_value (fuel : nat) (s : bytes) {struct fuel} : scan JSON :=
  match fuel with
  | O => scan_fuel
  | S fuel =>
      match skip_space s with
      | [] => scan_more
      | c :: s' =>
          if Byte.eqb c "[" then
            match skip_space s' with
            | [] => scan_more
            | d :: s'' =>
                if Byte.eqb d "]" then scanned (JArray []) s''
                else
                  match scan_elements fuel (d :: s'') with
                  | scanned vs r => scanned (JArray vs) r
                  | scan_more => scan_more
                  | scan_invalid => scan_invalid
                  | scan_fuel => scan_fuel
                  end
            end
          else if Byte.eqb c "{" then
            match skip_space s' with
            | [] => scan_more
            | d :: s'' =>
                if Byte.eqb d "}" then scanned (JObject []) s''
                else
                  match scan_members fuel (d :: s'') with
                  | scanned ms r => scanned (JObject ms) r
                  | scan_more => scan_more
                  | scan_invalid => scan_invalid
                  | scan_fuel => scan_fuel
                  end
            end
          else if Byte.eqb c quote then
            match scan_string [] s' with
            | scanned raw r => scanned (JString raw) r
            | scan_more => scan_more
            | scan_invalid => scan_invalid
            | scan_fuel => scan_fuel
            end
          else if Byte.eqb c "-" then
            match scan_number stateNeg [c] s' with
            | scanned lit r => scanned (JNumber lit) r
            | scan_more => scan_more
            | scan_invalid => scan_invalid
            | scan_fuel => scan_fuel
            end
          else if isDigit c then
            match scan_number (if Byte.eqb c "0" then state0 else state1) [c] s' with
            | scanned lit r => scanned (JNumber lit) r
            | scan_more => scan_more
            | scan_invalid => scan_invalid
            | scan_fuel => scan_fuel
            end
          else if Byte.eqb c "t" then
            match scan_literal (list_byte_of_string "rue") s' with
            | scanned _ r => scanned (JBool true) r
            | scan_more => scan_more
            | scan_invalid => scan_invalid
            | scan_fuel => scan_fuel
            end
          else if Byte.eqb c "f" then
            match scan_literal (list_byte_of_string "alse") s' with
            | scanned _ r => scanned (JBool false) r
            | scan_more => scan_more
            | scan_invalid => scan_invalid
            | scan_fuel => scan_fuel
            end
          else if Byte.eqb c "n" then
            match scan_literal (list_byte_of_string "ull") s' with
            | scanned _ r => scanned JNull r
            | scan_more => scan_more
            | scan_invalid => scan_invalid
            | scan_fuel => scan_fuel
            end
          else scan_invalid
      end
  end

with scan_elements (fuel : nat) (s : bytes) {struct fuel} : scan (list JSON) :=
  match fuel with
  | O => scan_fuel
  | S fuel =>
      match scan_value fuel s with
      | scanned v r =>
          match skip_space r with
          | [] => scan_more
          | c :: r' =>
              if Byte.eqb c "," then
                match scan_elements fuel r' with
                | scanned vs r'' => scanned (v :: vs) r''
                | other => other
                end
              else if Byte.eqb c "]" then scanned [v] r'
              else scan_invalid
          end
      | scan_more => scan_more
      | scan_invalid => scan_invalid
      | scan_fuel => scan_fuel
      end
  end

with scan_members (fuel : nat) (s : bytes) {struct fuel} : scan (list (bytes * JSON)) :=
  match fuel with
  | O => scan_fuel
  | S fuel =>
      match skip_space s with
      | [] => scan_more
      | q :: s1 =>
          if Byte.eqb q quote then
            match scan_string [] s1 with
            | scanned key s2 =>
                match skip_space s2 with
                | [] => scan_more
                | colon :: s3 =>
                    if Byte.eqb colon ":" then
                      match scan_value fuel s3 with
                      | scanned v r =>
                          match skip_space r with
                          | [] => scan_more
                          | c :: r' =>
                              if Byte.eqb c "," then
                                match scan_members fuel r' with
                                | scanned ms r'' => scanned ((key, v) :: ms) r''
                                | other => other
                                end
                              else if Byte.eqb c "}" then scanned [(key, v)] r'
                              else scan_invalid
                          end
                      | scan_more => scan_more
                      | scan_invalid => scan_invalid
                      | scan_fuel => scan_fuel
                      end
                    else scan_invalid
                end
            | scan_more => scan_more
            | scan_invalid => scan_invalid
            | scan_fuel => scan_fuel
            end
          else scan_invalid
      end
  end.

(** Recursion bound that is enough for the input [s]. *)
Definition fuel_for (s : bytes) : nat := 2 * List.length s + 2.

(** The first JSON value of [s]. *)
Definition scan_first (s : bytes) : scan JSON := scan_value (fuel_for s) s.

(** A well-formed JSON text: one value, and nothing but space around it. *)
Definition well_formed_json (s : bytes) : bool :=
  match scan_first s with
  | scanned _ rest =>
      match skip_space rest with
      | [] => true
      | _ => false
      end
  | _ => false
  end.

(** A scan that did not run out of fuel and, when it found a value, left
    at most [n] bytes after it. *)
Definition scan_within {A : Type} (r : scan A) (n : nat) : Prop :=
  match r with
  | scanned _ rest => (List.length rest <= n)%nat
  | scan_fuel => False
  | _ => True
  end.

(** ** Package [encoding/json]: storing a value *)

(** What JSON a Go type is filled from: [zero] is the zero value of the
    type and [unmarshal j v] the content of a variable holding [v] after
    the JSON value [j] has been stored in it, or the error reported.  (On an
    error Go leaves the variable partly written; no caller looks at it.) *)
Class Unmarshaler (T : Type) : Type := {
  zero : T;
  unmarshal : JSON -> T -> T + error
}.

(** What JSON a Go type is written as: [json.Marshal(v)]. *)
Class Marshaler (T : Type) : Type :=
  Marshal : T -> bytes * option error.

(** The name [encoding/json] gives a JSON value in its type errors. *)
Definition kind_of (j : JSON) : string :=
  match j with
  | JNull => "null"
  | JBool _ => "bool"
  | JNumber _ => "number"
  | JString _ => "string"
  | JArray _ => "array"
  | JObject _ => "object"
  end.

(** A pointer: [null] makes it nil; any other value is stored in what it
    points to, a fresh zero value when it is nil. *)
#[global] Instance ptr_Unmarshaler {T : Type} `{Unmarshaler T} : Unmarshaler (ptr T) := {
  zero := None;
  unmarshal j p :=
    match j with
    | JNull => inl None
    | _ =>
        match unmarshal j (match p with Some x => x | None => zero end) with
        | inl x => inl (Some x)
        | inr err => inr err
        end
    end
}.

(** The elements of an array stored one after the other: element [i] goes
    into the slice's element [i] while there is one, and into a zero value
    appended to it afterwards. *)
Fixpoint unmarshal_elements {T : Type} `{Unmarshaler T}
  (js : list JSON) (old : list T) : list T + error :=
  match js with
  | [] => inl []
  | j :: js' =>
      match unmarshal j (match old with x :: _ => x | [] => zero end) with
      | inr err => inr err
      | inl x =>
          match unmarshal_elements js' (List.tl old) with
          | inr err => inr err
          | inl xs => inl (x :: xs)
          end
      end
  end.

(** A slice: [null] makes it nil; an array replaces its content, the empty
    array giving a new empty slice; anything else is a type error. *)
#[global] Instance slice_Unmarshaler {T : Type} `{Unmarshaler T} : Unmarshaler (slice T) := {
  zero := nil_slice;
  unmarshal j s :=
    match j with
    | JNull => inl nil_slice
    | JArray js =>
        match unmarshal_elements js (match s with mk_slice l => l | nil_slice => [] end) with
        | inl xs => inl (mk_slice xs)
        | inr err => inr err
        end
    | _ => inr (json_UnmarshalTypeError (kind_of j))
    end
}.

(** A nil pointer is written as [null]. *)
#[global] Instance ptr_Marshaler {T : Type} `{Marshaler T} : Marshaler (ptr T) :=
  fun p =>
    match p with
    | None => (list_byte_of_string "null", None)
    | Some x => Marshal x
    end.

(** A value that is not an array or an object ends only with the byte
    after it, or with the end of the input. *)
Definition is_scalar (j : JSON) : bool :=
  match j with
  | JArray _ | JObject _ => false
  | _ => true
  end.

(** [json.NewDecoder(r).Decode(&v)]: the first JSON value of the stream is
    stored in [v]; what follows it in the stream is not looked at.  The
    results are the variable afterwards and the error. *)
Definition Decode {T : Type} `{Unmarshaler T} (r : Reader) (v : T) : T * option error :=
  match scan_first (pending r) with
  | scanned j rest =>
      match rest, is_scalar j, fault r with
      | [], true, Some err => (v, Some err)
      | _, _, _ =>
          match unmarshal j v with
          | inl v' => (v', None)
          | inr err => (v, Some err)
          end
      end
  | scan_more =>
      match fault r with
      | Some err => (v, Some err)
      | None =>
          match skip_space (pending r) with
          | [] => (v, Some io_EOF)
          | _ => (v, Some io_ErrUnexpectedEOF)
          end
      end
  | scan_invalid => (v, Some json_SyntaxError)
  | scan_fuel => (v, Some json_SyntaxError)
  end.

(** ** Package [encoding/json]: strings *)

Definition byte_of (n : N) : byte :=
  match Byte.of_N n with
  | Some b => b
  | None => x00
  end.

Definition RuneError : N := 65533.

(** [utf8.EncodeRune] *)
Definition utf8_EncodeRune (r : N) : bytes :=
  (if r <? 128 then [byte_of r]
   else if r <? 2048 then
     [byte_of (192 + r / 64); byte_of (128 + r mod 64)]
   else if ((55296 <=? r) && (r <? 57344)) || (1114111 <? r) then
     [xef; xbf; xbd]
   else if r <? 65536 then
     [byte_of (224 + r / 4096); byte_of (128 + (r / 64) mod 64); byte_of (128 + r mod 64)]
   else
     [byte_of (240 + r / 262144); byte_of (128 + (r / 4096) mod 64);
      byte_of (128 + (r / 64) mod 64); byte_of (128 + r mod 64)])%N.

Definition between (lo hi : N) (c : byte) : bool :=
  ((lo <=? code c) && (code c <=? hi))%N.

(** The length of the well-formed UTF-8 sequence of two to four bytes at
    the head of [s]; [O] when there is none. *)
Definition utf8_sequence (s : bytes) : nat :=
  match s with
  | c0 :: c1 :: rest =>
      if between 194 223 c0 then
        if between 128 191 c1 then 2%nat else O
      else
        match rest with
        | c2 :: rest' =>
            let three :=
              (Byte.eqb c0 xe0 && between 160 191 c1
               || (between 225 236 c0 || between 238 239 c0) && between 128 191 c1
               || Byte.eqb c0 xed && between 128 159 c1) && between 128 191 c2 in
            if three then 3%nat
            else
              match rest' with
              | c3 :: _ =>
                  if (Byte.eqb c0 xf0 && between 144 191 c1
                      || between 241 243 c0 && between 128 191 c1
                      || Byte.eqb c0 xf4 && between 128 143 c1)
                     && between 128 191 c2 && between 128 191 c3
                  then 4%nat else O
              | [] => O
              end
        | [] => O
        end
  | _ => O
  end.

Definition hex_value (c : byte) : N :=
  (if isDigit c then code c - 48
   else if between 97 102 c then code c - 87
   else code c - 55)%N.

(** [getu4]: the rune of the escape [\uXXXX] at the head of [s] *)
Definition getu4 (s : bytes) : option N :=
  match s with
  | b :: u :: h1 :: h2 :: h3 :: h4 :: _ =>
      if Byte.eqb b backslash && Byte.eqb u "u"
         && isHex h1 && isHex h2 && isHex h3 && isHex h4
      then Some (hex_value h1 * 4096 + hex_value h2 * 256 + hex_value h3 * 16 + hex_value h4)%N
      else None
  | _ => None
  end.

(** [utf16.IsSurrogate] *)
Definition utf16_IsSurrogate (r : N) : bool := ((55296 <=? r) && (r <? 57344))%N.

(** [utf16.DecodeRune] on a first half and what follows it *)
Definition utf16_DecodeRune (r1 : N) (r2 : option N) : N :=
  match r2 with
  | Some r2 =>
      (if (55296 <=? r1) && (r1 <? 56320) && (56320 <=? r2) && (r2 <? 57344)
       then (r1 - 55296) * 1024 + (r2 - 56320) + 65536
       else RuneError)%N
  | None => RuneError
  end.

(** [unquote]: the text of a string literal, given the bytes between its
    quotes.  Escapes are replaced, and bytes that are not UTF-8 by the
    replacement character; [copy] counts the bytes of a well-formed
    sequence still to be taken as they are. *)
Fixpoint unquote_from (copy : nat) (s : bytes) : option bytes :=
  match s with
  | [] => Some []
  | c :: s1 =>
      match copy with
      | S copy' => option_map (cons c) (unquote_from copy' s1)
      | O =>
          if Byte.eqb c backslash then
            match s1 with
            | [] => None
            | e :: s2 =>
                let simple (b : byte) := option_map (cons b) (unquote_from O s2) in
                if Byte.eqb e quote || Byte.eqb e backslash || Byte.eqb e "/" || Byte.eqb e "'"
                then simple e
                else if Byte.eqb e "b" then simple x08
                else if Byte.eqb e "f" then simple x0c
                else if Byte.eqb e "n" then simple x0a
                else if Byte.eqb e "r" then simple x0d
                else if Byte.eqb e "t" then simple x09
                else if Byte.eqb e "u" then
                  match getu4 s, s2 with
                  | Some rr, _ :: _ :: _ :: _ :: s6 =>
                      if utf16_IsSurrogate rr then
                        let dec := utf16_DecodeRune rr (getu4 s6) in
                        if negb (dec =? RuneError)%N then
                          match s6 with
                          | _ :: _ :: _ :: _ :: _ :: _ :: s12 =>
                              option_map (app (utf8_EncodeRune dec)) (unquote_from O s12)
                          | _ => None
                          end
                        else option_map (app (utf8_EncodeRune RuneError)) (unquote_from O s6)
                      else option_map (app (utf8_EncodeRune rr)) (unquote_from O s6)
                  | _, _ => None
                  end
                else None
            end
          else if Byte.eqb c quote || (code c <? 32)%N then None
          else if (code c <? 128)%N then option_map (cons c) (unquote_from O s1)
          else
            match utf8_sequence s with
            | O => option_map (app (utf8_EncodeRune RuneError)) (unquote_from O s1)
            | S n => option_map (cons c) (unquote_from n s1)
            end
      end
  end.

Definition unquote (raw : bytes) : option string :=
  option_map string_of_list_byte (unquote_from O raw).

Definition hex_digit (n : N) : byte :=
  (if n <? 10 then byte_of (48 + n) else byte_of (87 + n))%N.

(** The bytes of a string between the quotes [json.Marshal] puts around
    it: [copy] as in [unquote_from]. *)
Fixpoint encode_from (copy : nat) (s : bytes) : bytes :=
  match s with
  | [] => []
  | c :: s1 =>
      match copy with
      | S copy' => c :: encode_from copy' s1
      | O =>
          if (code c <? 128)%N then
            if Byte.eqb c backslash || Byte.eqb c quote then backslash :: c :: encode_from O s1
            else if Byte.eqb c x0a then backslash :: "n"%byte :: encode_from O s1
            else if Byte.eqb c x0d then backslash :: "r"%byte :: encode_from O s1
            else if Byte.eqb c x09 then backslash :: "t"%byte :: encode_from O s1
            else if (code c <? 32)%N || Byte.eqb c "<" || Byte.eqb c ">" || Byte.eqb c "&" then
              ([backslash; "u"%byte; "0"%byte; "0"%byte;
               hex_digit (code c / 16); hex_digit (code c mod 16)] ++ encode_from O s1)%list
            else c :: encode_from O s1
          else
            match utf8_sequence s with
            | O => (list_byte_of_string "\ufffd" ++ encode_from O s1)%list
            | S n =>
                match s1 with
                | c1 :: c2 :: s3 =>
                    if Byte.eqb c xe2 && Byte.eqb c1 x80 && (Byte.eqb c2 xa8 || Byte.eqb c2 xa9)
                    then (list_byte_of_string "\u202" ++ hex_digit (code c2 mod 16) :: encode_from O s3)%list
                    else c :: encode_from n s1
                | _ => c :: encode_from n s1
                end
            end
      end
  end.

(** A Go string as [json.Marshal] writes it. *)
Definition encode_string (s : string) : bytes :=
  (quote :: encode_from O (list_byte_of_string s) ++ [quote])%list.

(** Storing into a [string]: a JSON string gives its text, [null] leaves
    the variable as it is, anything else is a type error. *)
#[global] Instance string_Unmarshaler : Unmarshaler string := {
  zero := "";
  unmarshal j old :=
    match j with
    | JString raw =>
        match unquote raw with
        | Some s => inl s
        | None => inr json_SyntaxError
        end
    | JNull => inl old
    | _ => inr (json_UnmarshalTypeError (kind_of j))
    end
}.

(** Letters in lower case, the other bytes as they are: member names are
    matched to field names without regard to case. *)
Definition fold_case (key : bytes) : bytes :=
  map (fun c => if between 65 90 c then byte_of (code c + 32) else c) key.

(** Storing the members of an object into a struct: [field name] is how
    the member of that name is stored, [None] when the struct has no such
    field and the member is skipped. *)
Fixpoint unmarshal_members {T : Type} (field : string -> option (JSON -> T -> T + error))
  (ms : list (bytes * JSON)) (v : T) : T + error :=
  match ms with
  | [] => inl v
  | (rawkey, j) :: ms' =>
      match option_map (fun k => field (string_of_list_byte (fold_case (list_byte_of_string k))))
              (unquote rawkey) with
      | Some (Some store) =>
          match store j v with
          | inl v' => unmarshal_members field ms' v'
          | inr err => inr err
          end
      | _ => unmarshal_members field ms' v
      end
  end.

(** Storing into a struct: an object fills the fields it names, [null]
    changes nothing, anything else is a type error. *)
Definition unmarshal_struct {T : Type} (field : string -> option (JSON -> T -> T + error))
  (j : JSON) (v : T) : T + error :=
  match j with
  | JObject ms => unmarshal_members field ms v
  | JNull => inl v
  | _ => inr (json_UnmarshalTypeError (kind_of j))
  end.

(** ** The domain records *)

(** The records of packages [citadel] and [shipyard] that the client
    passes through.  The client encodes and decodes them and reads three of
    their fields: [container.ID], [engine.Engine.ID] and, when it builds a
    service key, [Description]. *)
Class Schema : Type := {
  citadel_Container : Type;
  citadel_Image : Type;
  citadel_Engine : Type;
  citadel_ClusterInfo : Type;
  shipyard_Engine : Type;
  shipyard_Event : Type;
  shipyard_Account : Type;
  shipyard_Role : Type;
  shipyard_AuthToken : Type;
  shipyard_ServiceKey : Type;
  (** [map[string]string], as the list of its entries *)
  Marshal_map :: Marshaler (list (string * string));
  Container_ID : citadel_Container -> string;
  Engine_Engine : shipyard_Engine -> ptr citadel_Engine;
  Engine_ID : citadel_Engine -> string;
  (** [shipyard.ServiceKey{Description: description}] *)
  ServiceKey_Description : string -> shipyard_ServiceKey;
  Marshal_Container :: Marshaler citadel_Container;
  Marshal_Image :: Marshaler citadel_Image;
  Marshal_Engine :: Marshaler shipyard_Engine;
  Marshal_Account :: Marshaler shipyard_Account;
  Marshal_ServiceKey :: Marshaler shipyard_ServiceKey;
  Unmarshal_Container :: Unmarshaler citadel_Container;
  Unmarshal_ClusterInfo :: Unmarshaler citadel_ClusterInfo;
  Unmarshal_Engine :: Unmarshaler shipyard_Engine;
  Unmarshal_Event :: Unmarshaler shipyard_Event;
  Unmarshal_Account :: Unmarshaler shipyard_Account;
  Unmarshal_Role :: Unmarshaler shipyard_Role;
  Unmarshal_AuthToken :: Unmarshaler shipyard_AuthToken;
  Unmarshal_ServiceKey :: Unmarshaler shipyard_ServiceKey
}.

(** [m[key] = value] on a map kept as the list of its entries *)
Fixpoint map_store (m : list (string * string)) (key value : string) : list (string * string) :=
  match m with
  | [] => [(key, value)]
  | (k, v) :: m' =>
      if String.eqb k key then (key, value) :: m' else (k, v) :: map_store m' key value
  end.

(** ** Package [client] *)

(** Modelled from the spec: the type [ShipyardConfig] is declared in
    another file of package [client]; these are the fields [client.go]
    reads, the base URL, the service key and the username and token pair. *)
Record ShipyardConfig : Type := mkShipyardConfig {
  Url : string;
  ServiceKey : string;
  Username : string;
  Token : string
}.

Record Manager : Type := mkManager {
  baseUrl : string;
  config : ptr ShipyardConfig
}.

Definition NewManager (cfg : ptr ShipyardConfig) : Manager :=
  {| baseUrl := ""; config := cfg |}.

(** The state a method runs in: [self] is the [Manager] the receiver [m]
    points to, with the configuration [m.config] points to, and [wire] the
    requests handed to the transport so far, oldest first. *)
Record World : Type := mkWorld {
  self : Manager;
  wire : list Request
}.

(** A method either returns or panics. *)
Inductive outcome (A : Type) : Type :=
| returns (a : A)
| panics.
Arguments panics {A}.

Definition M (A : Type) : Type := World -> outcome A * World.

Definition ret {A : Type} (a : A) : M A := fun w => (returns a, w).

Definition bind {A B : Type} (c : M A) (k : A -> M B) : M B :=
  fun w =>
    match c w with
    | (returns a, w') => k a w'
    | (panics, w') => (panics, w')
    end.

Notation "x <- c ;; k" := (bind c (fun x => k))
  (at level 61, c at next level, right associativity).
Notation "' pat <- c ;; k" := (bind c (fun x => match x with pat => k end))
  (at level 61, pat pattern, c at next level, right associativity).

(** The receiver [m] *)
Definition receiver : M Manager := fun w => (returns (self w), w).

(** [*p]; a nil pointer dereference panics *)
Definition deref {A : Type} (p : ptr A) : M A :=
  fun w =>
    match p with
    | Some a => (returns a, w)
    | None => (panics, w)
    end.

Section Client.

Context `{Transport} `{Schema}.

(** [http.DefaultClient.Do(req)] *)
Definition http_Do (req : Request) : M (Response + error) :=
  fun w => (returns (RoundTrip (wire w) req),
            {| self := self w; wire := wire w ++ [req] |}).

Definition buildUrl (path : string) : M string :=
  m <- receiver ;;
  cfg <- deref (config m) ;;
  ret (Sprintf "%s%s" [a_string (Url cfg); a_string path]).

Definition doRequest (path method : string) (expectedStatus : Z) (b : bytes)
  : M (ptr Response * option error) :=
  url <- buildUrl path ;;
  let buf := b in
  match http_NewRequest method url buf with
  | inr err => ret (None, Some err)
  | inl req =>
      m <- receiver ;;
      cfg <- deref (config m) ;;
      let req :=
        if negb (String.eqb (ServiceKey cfg) "")
        then Header_Add req "X-Service-Key" (ServiceKey cfg)
        else Header_Add req "X-Access-Token"
               (Sprintf "%s:%s" [a_string (Username cfg); a_string (Token cfg)]) in
      r <- http_Do req ;;
      match r with
      | inr err => ret (None, Some err)
      | inl resp =>
          if StatusCode resp =? 401 then ret (Some resp, Some ErrUnauthorized)
          else if negb (StatusCode resp =? expectedStatus) then
            let '(c, err, body) := ioutil_ReadAll (Body resp) in
            match err with
            | Some err => ret (None, Some err)
            | None =>
                ret (Some {| StatusCode := StatusCode resp; Body := body |},
                     Some (errors_New (string_of_list_byte c)))
            end
          else ret (Some resp, None)
      end
  end.

Definition Containers : M (slice (ptr citadel_Container) * option error) :=
  let containers : slice (ptr citadel_Container) := mk_slice [] in
  '(resp, err) <- doRequest "/api/containers" "GET" 200 [] ;;
  match err with
  | Some _ => ret (nil_slice, err)
  | None =>
      resp <- deref resp ;;
      let '(containers, err) := Decode (Body resp) containers in
      match err with
      | Some _ => ret (nil_slice, err)
      | None => ret (containers, None)
      end
  end.

Definition Run (image : ptr citadel_Image) (count : Z) (pull : bool)
  : M (slice (ptr citadel_Container) * option error) :=
  let '(b, err) := Marshal image in
  match err with
  | Some _ => ret (nil_slice, err)
  | None =>
      let containers : slice (ptr citadel_Container) := nil_slice in
      '(resp, err) <- doRequest
                        (Sprintf "/api/containers?count=%d&pull=%v" [a_int count; a_bool pull])
                        "POST" 201 b ;;
      match err with
      | Some _ => ret (nil_slice, err)
      | None =>
          resp <- deref resp ;;
          let '(containers, err) := Decode (Body resp) containers in
          match err with
          | Some _ => ret (nil_slice, err)
          | None => ret (containers, None)
          end
      end
  end.

Definition Destroy (container : ptr citadel_Container) : M (option error) :=
  let '(b, err) := Marshal container in
  match err with
  | Some _ => ret err
  | None =>
      c <- deref container ;;
      '(_, err) <- doRequest (Sprintf "/api/containers/%s" [a_string (Container_ID c)])
                     "DELETE" 204 b ;;
      match err with
      | Some _ => ret err
      | None => ret None
      end
  end.

Definition Engines : M (slice (ptr shipyard_Engine) * option error) :=
  let engines : slice (ptr shipyard_Engine) := mk_slice [] in
  '(resp, err) <- doRequest "/api/engines" "GET" 200 [] ;;
  match err with
  | Some _ => ret (nil_slice, err)
  | None =>
      resp <- deref resp ;;
      let '(engines, err) := Decode (Body resp) engines in
      match err with
      | Some _ => ret (nil_slice, err)
      | None => ret (engines, None)
      end
  end.

Definition AddEngine (engine : ptr shipyard_Engine) : M (option error) :=
  let '(b, err) := Marshal engine in
  match err with
  | Some _ => ret err
  | None =>
      '(_, err) <- doRequest "/api/engines" "POST" 201 b ;;
      match err with
      | Some _ => ret err
      | None => ret None
      end
  end.

Definition RemoveEngine (engine : ptr shipyard_Engine) : M (option error) :=
  e <- deref engine ;;
  ce <- deref (Engine_Engine e) ;;
  '(_, err) <- doRequest (Sprintf "/api/engines/%s" [a_string (Engine_ID ce)])
                 "DELETE" 204 [] ;;
  match err with
  | Some _ => ret err
  | None => ret None
  end.

Definition GetContainer (id : string) : M (ptr citadel_Container * option error) :=
  let container : ptr citadel_Container := None in
  '(resp, err) <- doRequest (Sprintf "/api/containers/%s" [a_string id]) "GET" 200 [] ;;
  match err with
  | Some _ => ret (None, err)
  | None =>
      resp <- deref resp ;;
      let '(container, err) := Decode (Body resp) container in
      match err with
      | Some _ => ret (None, err)
      | None => ret (container, None)
      end
  end.

Definition GetEngine (id : string) : M (ptr shipyard_Engine * option error) :=
  let engine : ptr shipyard_Engine := None in
  '(resp, err) <- doRequest (Sprintf "/api/engines/%s" [a_string id]) "GET" 200 [] ;;
  match err with
  | Some _ => ret (None, err)
  | None =>
      resp <- deref resp ;;
      let '(engine, err) := Decode (Body resp) engine in
      match err with
      | Some _ => ret (None, err)
      | None => ret (engine, None)
      end
  end.

Definition Info : M (ptr citadel_ClusterInfo * option error) :=
  let info : ptr citadel_ClusterInfo := None in
  '(resp, err) <- doRequest "/api/cluster/info" "GET" 200 [] ;;
  match err with
  | Some _ => ret (None, err)
  | None =>
      resp <- deref resp ;;
      let '(info, err) := Decode (Body resp) info in
      match err with
      | Some _ => ret (None, err)
      | None => ret (info, None)
      end
  end.

Definition Events : M (slice (ptr shipyard_Event) * option error) :=
  let events : slice (ptr shipyard_Event) := mk_slice [] in
  '(resp, err) <- doRequest "/api/events" "GET" 200 [] ;;
  match err with
  | Some _ => ret (nil_slice, err)
  | None =>
      resp <- deref resp ;;
      let '(events, err) := Decode (Body resp) events in
      match err with
      | Some _ => ret (nil_slice, err)
      | None => ret (events, None)
      end
  end.

Definition Accounts : M (slice (ptr shipyard_Account) * option error) :=
  let accounts : slice (ptr shipyard_Account) := mk_slice [] in
  '(resp, err) <- doRequest "/api/accounts" "GET" 200 [] ;;
  match err with
  | Some _ => ret (nil_slice, err)
  | None =>
      resp <- deref resp ;;
      let '(accounts, err) := Decode (Body resp) accounts in
      match err with
      | Some _ => ret (nil_slice, err)
      | None => ret (accounts, None)
      end
  end.

Definition Roles : M (slice (ptr shipyard_Role) * option error) :=
  let roles : slice (ptr shipyard_Role) := mk_slice [] in
  '(resp, err) <- doRequest "/api/roles" "GET" 200 [] ;;
  match err with
  | Some _ => ret (nil_slice, err)
  | None =>
      resp <- deref resp ;;
      let '(roles, err) := Decode (Body resp) roles in
      match err with
      | Some _ => ret (nil_slice, err)
      | None => ret (roles, None)
      end
  end.

Definition Role (name : string) : M (ptr shipyard_Role * option error) :=
  let role : ptr shipyard_Role := Some zero in
  '(resp, err) <- doRequest (Sprintf "/api/roles/%s" [a_string name]) "GET" 200 [] ;;
  match err with
  | Some _ => ret (None, err)
  | None =>
      resp <- deref resp ;;
      let '(role, err) := Decode (Body resp) role in
      match err with
      | Some _ => ret (None, err)
      | None => ret (role, None)
      end
  end.

Definition AddAccount (account : ptr shipyard_Account) : M (option error) :=
  let '(b, err) := Marshal account in
  match err with
  | Some _ => ret err
  | None =>
      '(_, err) <- doRequest "/api/accounts" "POST" 204 b ;;
      match err with
      | Some _ => ret err
      | None => ret None
      end
  end.

Definition DeleteAccount (account : ptr shipyard_Account) : M (option error) :=
  let '(b, err) := Marshal account in
  match err with
  | Some _ => ret err
  | None =>
      '(_, err) <- doRequest "/api/accounts" "DELETE" 204 b ;;
      match err with
      | Some _ => ret err
      | None => ret None
      end
  end.

Definition Login (username password : string) : M (ptr shipyard_AuthToken * option error) :=
  let creds : list (string * string) := [] in
  let creds := map_store creds "username" username in
  let creds := map_store creds "password" password in
  let '(b, err) := Marshal creds in
  match err with
  | Some _ => ret (None, err)
  | None =>
      '(resp, err) <- doRequest "/auth/login" "POST" 200 b ;;
      match err with
      | Some _ => ret (None, err)
      | None =>
          let token : ptr shipyard_AuthToken := None in
          resp <- deref resp ;;
          let '(token, err) := Decode (Body resp) token in
          match err with
          | Some _ => ret (None, err)
          | None => ret (token, None)
          end
      end
  end.

Definition ChangePassword (password : string) : M (option error) :=
  let creds : list (string * string) := [] in
  let creds := map_store creds "password" password in
  let '(b, err) := Marshal creds in
  match err with
  | Some _ => ret err
  | None =>
      '(_, err) <- doRequest "/account/changepassword" "POST" 200 b ;;
      match err with
      | Some _ => ret err
      | None => ret None
      end
  end.

Definition ServiceKeys : M (slice (ptr shipyard_ServiceKey) * option error) :=
  let keys : slice (ptr shipyard_ServiceKey) := mk_slice [] in
  '(resp, err) <- doRequest "/api/servicekeys" "GET" 200 [] ;;
  match err with
  | Some _ => ret (nil_slice, err)
  | None =>
      resp <- deref resp ;;
      let '(keys, err) := Decode (Body resp) keys in
      match err with
      | Some _ => ret (nil_slice, err)
      | None => ret (keys, None)
      end
  end.

Definition NewServiceKey (description : string) : M (ptr shipyard_ServiceKey * option error) :=
  let k : ptr shipyard_ServiceKey := Some (ServiceKey_Description description) in
  let '(b, err) := Marshal k in
  match err with
  | Some _ => ret (None, err)
  | None =>
      '(resp, err) <- doRequest "/api/servicekeys" "POST" 200 b ;;
      match err with
      | Some _ => ret (None, err)
      | None =>
          let key : ptr shipyard_ServiceKey := None in
          resp <- deref resp ;;
          let '(key, err) := Decode (Body resp) key in
          match err with
          | Some _ => ret (None, err)
          | None => ret (key, None)
          end
      end
  end.

Definition RemoveServiceKey (key : ptr shipyard_ServiceKey) : M (option error) :=
  let '(b, err) := Marshal key in
  match err with
  | Some _ => ret err
  | None =>
      '(_, err) <- doRequest "/api/servicekeys" "DELETE" 204 b ;;
      match err with
      | Some _ => ret err
      | None => ret None
      end
  end.

End Client.

(** ** The operations by kind *)

Section Operations.

Context `{Transport} `{Schema}.

(** Every public operation of [Manager], with its arguments. *)
Inductive operation : Type :=
| OpContainers
| OpRun (image : ptr citadel_Image) (count : Z) (pull : bool)
| OpDestroy (container : ptr citadel_Container)
| OpEngines
| OpAddEngine (engine : ptr shipyard_Engine)
| OpRemoveEngine (engine : ptr shipyard_Engine)
| OpGetContainer (id : string)
| OpGetEngine (id : string)
| OpInfo
| OpEvents
| OpAccounts
| OpRoles
| OpRole (name : string)
| OpAddAccount (account : ptr shipyard_Account)
| OpDeleteAccount (account : ptr shipyard_Account)
| OpLogin (username password : string)
| OpChangePassword (password : string)
| OpServiceKeys
| OpNewServiceKey (description : string)
| OpRemoveServiceKey (key : ptr shipyard_ServiceKey).

(** The state an operation leaves behind. *)
Definition world_after (op : operation) (w : World) : World :=
  match op with
  | OpContainers => snd (Containers w)
  | OpRun image count pull => snd (Run image count pull w)
  | OpDestroy container => snd (Destroy container w)
  | OpEngines => snd (Engines w)
  | OpAddEngine engine => snd (AddEngine engine w)
  | OpRemoveEngine engine => snd (RemoveEngine engine w)
  | OpGetContainer id => snd (GetContainer id w)
  | OpGetEngine id => snd (GetEngine id w)
  | OpInfo => snd (Info w)
  | OpEvents => snd (Events w)
  | OpAccounts => snd (Accounts w)
  | OpRoles => snd (Roles w)
  | OpRole name => snd (Role name w)
  | OpAddAccount account => snd (AddAccount account w)
  | OpDeleteAccount account => snd (DeleteAccount account w)
  | OpLogin username password => snd (Login username password w)
  | OpChangePassword password => snd (ChangePassword password w)
  | OpServiceKeys => snd (ServiceKeys w)
  | OpNewServiceKey description => snd (NewServiceKey description w)
  | OpRemoveServiceKey key => snd (RemoveServiceKey key w)
  end.

(** The operations that return a list. *)
Inductive listing : Type :=
| ListContainers
| ListRun (image : ptr citadel_Image) (count : Z) (pull : bool)
| ListEngines
| ListEvents
| ListAccounts
| ListRoles
| ListServiceKeys.

Definition listed (l : listing) : Type :=
  match l with
  | ListContainers | ListRun _ _ _ => citadel_Container
  | ListEngines => shipyard_Engine
  | ListEvents => shipyard_Event
  | ListAccounts => shipyard_Account
  | ListRoles => shipyard_Role
  | ListServiceKeys => shipyard_ServiceKey
  end.

#[global] Instance listed_Unmarshaler (l : listing) : Unmarshaler (listed l) :=
  match l with
  | ListContainers | ListRun _ _ _ => Unmarshal_Container
  | ListEngines => Unmarshal_Engine
  | ListEvents => Unmarshal_Event
  | ListAccounts => Unmarshal_Account
  | ListRoles => Unmarshal_Role
  | ListServiceKeys => Unmarshal_ServiceKey
  end.

Definition list_call (l : listing) : M (slice (ptr (listed l)) * option error) :=
  match l return M (slice (ptr (listed l)) * option error) with
  | ListContainers => Containers
  | ListRun image count pull => Run image count pull
  | ListEngines => Engines
  | ListEvents => Events
  | ListAccounts => Accounts
  | ListRoles => Roles
  | ListServiceKeys => ServiceKeys
  end.

(** The status each of them passes to [doRequest]. *)
Definition list_status (l : listing) : Z :=
  match l with
  | ListRun _ _ _ => 201
  | _ => 200
  end.

(** The operations that return only an error. *)
Inductive command : Type :=
| CmdDestroy (container : ptr citadel_Container)
| CmdAddEngine (engine : ptr shipyard_Engine)
| CmdRemoveEngine (engine : ptr shipyard_Engine)
| CmdAddAccount (account : ptr shipyard_Account)
| CmdDeleteAccount (account : ptr shipyard_Account)
| CmdChangePassword (password : string)
| CmdRemoveServiceKey (key : ptr shipyard_ServiceKey).

Definition command_call (c : command) : M (option error) :=
  match c with
  | CmdDestroy container => Destroy container
  | CmdAddEngine engine => AddEngine engine
  | CmdRemoveEngine engine => RemoveEngine engine
  | CmdAddAccount account => AddAccount account
  | CmdDeleteAccount account => DeleteAccount account
  | CmdChangePassword password => ChangePassword password
  | CmdRemoveServiceKey key => RemoveServiceKey key
  end.

(** The status each of them passes to [doRequest]. *)
Definition command_status (c : command) : Z :=
  match c with
  | CmdAddEngine _ => 201
  | CmdChangePassword _ => 200
  | _ => 204
  end.

(** The request the specification prescribes for a call of the executor:
    the URL is the base URL followed by the path, and the one header is the
    service key when there is one and the pair of username and token
    otherwise. *)
Definition spec_auth_header (cfg : ShipyardConfig) : string * string :=
  if String.eqb (ServiceKey cfg) "" then ("X-Access-Token", Username cfg ++ ":" ++ Token cfg)
  else ("X-Service-Key", ServiceKey cfg).

Definition spec_request (cfg : ShipyardConfig) (path method : string) (b : bytes) : Request :=
  {| Method := method;
     URL := Url cfg ++ path;
     Header := [spec_auth_header cfg];
     ReqBody := b |}.

(** The status interpretation of the specification, on what the transport
    yields: a transport error as it is, Unauthorized for status 401, success
    for the expected status, and otherwise the body as the error text, or
    the read error when the body cannot be read to its end. *)
Definition spec_verdict (expectedStatus : Z) (r : Response + error)
  : ptr Response * option error :=
  match r with
  | inr err => (None, Some err)
  | inl resp =>
      if StatusCode resp =? 401 then (Some resp, Some ErrUnauthorized)
      else if StatusCode resp =? expectedStatus then (Some resp, None)
      else
        match fault (Body resp) with
        | Some err => (None, Some err)
        | None =>
            (Some {| StatusCode := StatusCode resp; Body := drained (Body resp) |},
             Some (errors_New (string_of_list_byte (pending (Body resp)))))
        end
  end.

(** A computation that, run in [w], hands exactly the request [req] to the
    transport and is answered with [resp]. *)
Definition answered {A : Type} (c : M A) (w : World) (req : Request) (resp : Response) : Prop :=
  wire (snd (c w)) = (wire w ++ [req])%list /\ RoundTrip (wire w) req = inl resp.

(** A computation that leaves the receiver as it found it. *)
Definition keeps_self {A : Type} (c : M A) : Prop :=
  forall w, self (snd (c w)) = self w.

(** A continuation that does not touch the state. *)
Definition silent {A B : Type} (k : A -> M B) : Prop :=
  forall x w, snd (k x w) = w.

(** What a list operation returns for the outcome of decoding: nil and
    the error when decoding failed, the decoded slice otherwise. *)
Definition decoded_list {T : Type} (d : slice T * option error) : slice T * option error :=
  match d with
  | (_, Some err) => (nil_slice, Some err)
  | (v, None) => (v, None)
  end.

(** The variable each list operation decodes into. *)
Definition list_variable (l : listing) : slice (ptr (listed l)) :=
  match l with
  | ListRun _ _ _ => nil_slice
  | _ => mk_slice []
  end.

End Operations.

(** ** What an operation is seen to do *)

Section Plans.

Context `{Transport} `{Schema}.

(** The operations that return one value. *)
Inductive fetch : Type :=
| FetchContainer (id : string)
| FetchEngine (id : string)
| FetchInfo
| FetchRole (name : string)
| FetchLogin (username password : string)
| FetchNewServiceKey (description : string).

Definition fetched (f : fetch) : Type :=
  match f with
  | FetchContainer _ => citadel_Container
  | FetchEngine _ => shipyard_Engine
  | FetchInfo => citadel_ClusterInfo
  | FetchRole _ => shipyard_Role
  | FetchLogin _ _ => shipyard_AuthToken
  | FetchNewServiceKey _ => shipyard_ServiceKey
  end.

#[global] Instance fetched_Unmarshaler (f : fetch) : Unmarshaler (fetched f) :=
  match f with
  | FetchContainer _ => Unmarshal_Container
  | FetchEngine _ => Unmarshal_Engine
  | FetchInfo => Unmarshal_ClusterInfo
  | FetchRole _ => Unmarshal_Role
  | FetchLogin _ _ => Unmarshal_AuthToken
  | FetchNewServiceKey _ => Unmarshal_ServiceKey
  end.

Definition fetch_call (f : fetch) : M (ptr (fetched f) * option error) :=
  match f return M (ptr (fetched f) * option error) with
  | FetchContainer id => GetContainer id
  | FetchEngine id => GetEngine id
  | FetchInfo => Info
  | FetchRole name => Role name
  | FetchLogin username password => Login username password
  | FetchNewServiceKey description => NewServiceKey description
  end.

(** The variable each of them decodes into: a nil pointer, except in
    [Role], which starts from a pointer to a zero value. *)
Definition fetch_variable (f : fetch) : ptr (fetched f) :=
  match f with
  | FetchRole _ => Some zero
  | _ => None
  end.

(** What such an operation returns for the outcome of decoding. *)
Definition decoded_value {T : Type} (d : ptr T * option error) : ptr T * option error :=
  match d with
  | (_, Some err) => (None, Some err)
  | (v, None) => (v, None)
  end.

(** What a caller sees of a result without looking into the value: whether
    the value is nil, and the error.  An operation that returns only an
    error has no value, which counts as nil. *)
Definition seen_list {T : Type} (r : slice T * option error) : bool * option error :=
  (is_nil (fst r), snd r).

Definition seen_value {T : Type} (r : ptr T * option error) : bool * option error :=
  (match fst r with None => true | Some _ => false end, snd r).

Definition seen_error (r : option error) : bool * option error := (true, r).

Definition seen {A : Type} (see : A -> bool * option error) (r : outcome A)
  : outcome (bool * option error) :=
  match r with
  | returns a => returns (see a)
  | panics => panics
  end.

Definition report (op : operation) (w : World) : outcome (bool * option error) :=
  match op with
  | OpContainers => seen seen_list (fst (Containers w))
  | OpRun image count pull => seen seen_list (fst (Run image count pull w))
  | OpDestroy container => seen seen_error (fst (Destroy container w))
  | OpEngines => seen seen_list (fst (Engines w))
  | OpAddEngine engine => seen seen_error (fst (AddEngine engine w))
  | OpRemoveEngine engine => seen seen_error (fst (RemoveEngine engine w))
  | OpGetContainer id => seen seen_value (fst (GetContainer id w))
  | OpGetEngine id => seen seen_value (fst (GetEngine id w))
  | OpInfo => seen seen_value (fst (Info w))
  | OpEvents => seen seen_list (fst (Events w))
  | OpAccounts => seen seen_list (fst (Accounts w))
  | OpRoles => seen seen_list (fst (Roles w))
  | OpRole name => seen seen_value (fst (Role name w))
  | OpAddAccount account => seen seen_error (fst (AddAccount account w))
  | OpDeleteAccount account => seen seen_error (fst (DeleteAccount account w))
  | OpLogin username password => seen seen_value (fst (Login username password w))
  | OpChangePassword password => seen seen_error (fst (ChangePassword password w))
  | OpServiceKeys => seen seen_list (fst (ServiceKeys w))
  | OpNewServiceKey description => seen seen_value (fst (NewServiceKey description w))
  | OpRemoveServiceKey key => seen seen_error (fst (RemoveServiceKey key w))
  end.

(** How an operation goes about its request, read off its code: it gives
    up with the error of an encoding that failed, it panics on a nil
    argument, or it calls [doRequest] with a path, a method, the status it
    expects and a body, and then finishes on the response. *)
Inductive plan : Type :=
| Abort (err : error)
| Crash
| Send (path method : string) (status : Z) (b : bytes)
       (finish : ptr Response -> outcome (bool * option error)).

(** The three ways to finish: nothing more to do; decode a list; decode a
    value. *)
Definition finish_command (r : ptr Response) : outcome (bool * option error) :=
  returns (true, None).

Definition finish_list {T : Type} `{Unmarshaler T} (v : slice T) (r : ptr Response)
  : outcome (bool * option error) :=
  match r with
  | None => panics
  | Some resp => returns (seen_list (decoded_list (Decode (Body resp) v)))
  end.

Definition finish_value {T : Type} `{Unmarshaler T} (v : ptr T) (r : ptr Response)
  : outcome (bool * option error) :=
  match r with
  | None => panics
  | Some resp => returns (seen_value (decoded_value (Decode (Body resp) v)))
  end.

(** An encoding, then the plan that needs it. *)
Definition encoded (m : bytes * option error) (k : bytes -> plan) : plan :=
  match m with
  | (_, Some err) => Abort err
  | (b, None) => k b
  end.

Definition bool_text (b : bool) : string := if b then "true" else "false".

Definition plan_of (op : operation) : plan :=
  match op with
  | OpContainers =>
      Send "/api/containers" "GET" 200 []
        (finish_list (mk_slice [] : slice (ptr citadel_Container)))
  | OpRun image count pull =>
      encoded (Marshal image) (fun b =>
        Send ("/api/containers?count=" ++ itoa count ++ "&pull=" ++ bool_text pull) "POST" 201 b
          (finish_list (nil_slice : slice (ptr citadel_Container))))
  | OpDestroy container =>
      encoded (Marshal container) (fun b =>
        match container with
        | None => Crash
        | Some c => Send ("/api/containers/" ++ Container_ID c) "DELETE" 204 b finish_command
        end)
  | OpEngines =>
      Send "/api/engines" "GET" 200 []
        (finish_list (mk_slice [] : slice (ptr shipyard_Engine)))
  | OpAddEngine engine =>
      encoded (Marshal engine) (fun b => Send "/api/engines" "POST" 201 b finish_command)
  | OpRemoveEngine engine =>
      match engine with
      | None => Crash
      | Some e =>
          match Engine_Engine e with
          | None => Crash
          | Some ce => Send ("/api/engines/" ++ Engine_ID ce) "DELETE" 204 [] finish_command
          end
      end
  | OpGetContainer id =>
      Send ("/api/containers/" ++ id) "GET" 200 []
        (finish_value (None : ptr citadel_Container))
  | OpGetEngine id =>
      Send ("/api/engines/" ++ id) "GET" 200 []
        (finish_value (None : ptr shipyard_Engine))
  | OpInfo =>
      Send "/api/cluster/info" "GET" 200 []
        (finish_value (None : ptr citadel_ClusterInfo))
  | OpEvents =>
      Send "/api/events" "GET" 200 []
        (finish_list (mk_slice [] : slice (ptr shipyard_Event)))
  | OpAccounts =>
      Send "/api/accounts" "GET" 200 []
        (finish_list (mk_slice [] : slice (ptr shipyard_Account)))
  | OpRoles =>
      Send "/api/roles" "GET" 200 []
        (finish_list (mk_slice [] : slice (ptr shipyard_Role)))
  | OpRole name =>
      Send ("/api/roles/" ++ name) "GET" 200 []
        (finish_value (Some zero : ptr shipyard_Role))
  | OpAddAccount account =>
      encoded (Marshal account) (fun b => Send "/api/accounts" "POST" 204 b finish_command)
  | OpDeleteAccount account =>
      encoded (Marshal account) (fun b => Send "/api/accounts" "DELETE" 204 b finish_command)
  | OpLogin username password =>
      encoded (Marshal (map_store (map_store [] "username" username) "password" password))
        (fun b => Send "/auth/login" "POST" 200 b
                    (finish_value (None : ptr shipyard_AuthToken)))
  | OpChangePassword password =>
      encoded (Marshal (map_store [] "password" password))
        (fun b => Send "/account/changepassword" "POST" 200 b finish_command)
  | OpServiceKeys =>
      Send "/api/servicekeys" "GET" 200 []
        (finish_list (mk_slice [] : slice (ptr shipyard_ServiceKey)))
  | OpNewServiceKey description =>
      encoded (Marshal (Some (ServiceKey_Description description) : ptr shipyard_ServiceKey))
        (fun b => Send "/api/servicekeys" "POST" 200 b
                    (finish_value (None : ptr shipyard_ServiceKey)))
  | OpRemoveServiceKey key =>
      encoded (Marshal key) (fun b => Send "/api/servicekeys" "DELETE" 204 b finish_command)
  end.

(** The status an operation takes for success. *)
Definition op_status (op : operation) : Z :=
  match op with
  | OpRun _ _ _ | OpAddEngine _ => 201
  | OpDestroy _ | OpRemoveEngine _ | OpAddAccount _ | OpDeleteAccount _
  | OpRemoveServiceKey _ => 204
  | _ => 200
  end.

(** A plan carried out: what the caller sees, and the state afterwards. *)
Definition carry_out (p : plan) (w : World) : outcome (bool * option error) * World :=
  match p with
  | Abort err => (returns (true, Some err), w)
  | Crash => (panics, w)
  | Send path method status b finish =>
      match config (self w) with
      | None => (panics, w)
      | Some cfg =>
          match NewRequest_check method (Url cfg ++ path) with
          | Some err => (returns (true, Some err), w)
          | None =>
              let req := spec_request cfg path method b in
              (match spec_verdict status (RoundTrip (wire w) req) with
               | (_, Some err) => returns (true, Some err)
               | (resp, None) => finish resp
               end,
               {| self := self w; wire := wire w ++ [req] |})
          end
      end
  end.

(** An operation called with a nil pointer that it dereferences. *)
Definition nil_argument (op : operation) : bool :=
  match op with
  | OpDestroy None => true
  | OpRemoveEngine None => true
  | OpRemoveEngine (Some e) =>
      match Engine_Engine e with
      | None => true
      | Some _ => false
      end
  | _ => false
  end.

(** An operation that, run in [w], hands exactly [req] to the transport. *)
Definition sends (op : operation) (w : World) (req : Request) : Prop :=
  wire (world_after op w) = (wire w ++ [req])%list.

End Plans.

(** ** A deployment to run the client against *)

Module Scenario.

(** Text with the quotes of JSON written as apostrophes. *)
Definition json_text (s : string) : bytes :=
  map (fun c => if Byte.eqb c "'" then quote else c) (list_byte_of_string s).

(** Modelled from the spec: the records of its scenarios, a container with
    its identifier ([id]) and an image with its name ([name]); an engine
    holds a pointer to the cluster's engine with its identifier, a service
    key its key and description.  Records whose fields no scenario shows
    have none. *)
Record container : Type := { ID : string }.
Record image : Type := { Name : string }.
Record cluster_engine : Type := { EngineID : string }.
Record engine : Type := { Engine : ptr cluster_engine }.
Record service_key : Type := { Key : string; Description : string }.
Record opaque : Type := { }.

Definition object1 (name : string) (value : bytes) : bytes :=
  (json_text "{'" ++ list_byte_of_string name ++ json_text "':" ++ value ++ json_text "}")%list.

#[local] Instance container_Marshaler : Marshaler container :=
  fun c => (object1 "id" (encode_string (ID c)), None).

#[local] Instance image_Marshaler : Marshaler image :=
  fun i => (object1 "name" (encode_string (Name i)), None).

#[local] Instance cluster_engine_Marshaler : Marshaler cluster_engine :=
  fun e => (object1 "id" (encode_string (EngineID e)), None).

#[local] Instance engine_Marshaler : Marshaler engine :=
  fun e => (object1 "engine" (fst (Marshal (Engine e))), None).

#[local] Instance service_key_Marshaler : Marshaler service_key :=
  fun k => ((json_text "{'key':" ++ encode_string (Key k)
             ++ json_text ",'description':" ++ encode_string (Description k)
             ++ json_text "}")%list, None).

#[local] Instance opaque_Marshaler : Marshaler opaque :=
  fun _ => (json_text "{}", None).

(** A map is written with its keys in increasing order. *)
Fixpoint insert_entry (kv : string * string) (m : list (string * string))
  : list (string * string) :=
  match m with
  | [] => [kv]
  | kv' :: m' =>
      if String.leb (fst kv) (fst kv') then kv :: m else kv' :: insert_entry kv m'
  end.

#[local] Instance map_Marshaler : Marshaler (list (string * string)) :=
  fun m =>
    let entry (kv : string * string) :=
      (encode_string (fst kv) ++ json_text ":" ++ encode_string (snd kv))%list in
    let sorted := fold_right insert_entry [] m in
    ((json_text "{"
      ++ List.concat (map entry (firstn 1 sorted))
      ++ List.concat (map (fun kv => (json_text "," ++ entry kv)%list) (skipn 1 sorted))
      ++ json_text "}")%list, None).

Definition with_field {A T : Type} `{Unmarshaler A} (get : T -> A) (set : A -> T)
  : JSON -> T -> T + error :=
  fun j v =>
    match unmarshal j (get v) with
    | inl a => inl (set a)
    | inr err => inr err
    end.

#[local] Instance container_Unmarshaler : Unmarshaler container := {
  zero := {| ID := "" |};
  unmarshal := unmarshal_struct (fun name =>
    if String.eqb name "id" then Some (with_field ID (fun s => {| ID := s |}))
    else None)
}.

#[local] Instance cluster_engine_Unmarshaler : Unmarshaler cluster_engine := {
  zero := {| EngineID := "" |};
  unmarshal := unmarshal_struct (fun name =>
    if String.eqb name "id" then Some (with_field EngineID (fun s => {| EngineID := s |}))
    else None)
}.

#[local] Instance engine_Unmarshaler : Unmarshaler engine := {
  zero := {| Engine := None |};
  unmarshal := unmarshal_struct (fun name =>
    if String.eqb name "engine" then Some (with_field Engine (fun e => {| Engine := e |}))
    else None)
}.

#[local] Instance service_key_Unmarshaler : Unmarshaler service_key := {
  zero := {| Key := ""; Description := "" |};
  unmarshal := unmarshal_struct (fun name =>
    if String.eqb name "key"
    then Some (fun j k => with_field Key (fun s => {| Key := s; Description := Description k |}) j k)
    else if String.eqb name "description"
    then Some (fun j k => with_field Description (fun s => {| Key := Key k; Description := s |}) j k)
    else None)
}.

#[local] Instance opaque_Unmarshaler : Unmarshaler opaque := {
  zero := Build_opaque;
  unmarshal := unmarshal_struct (fun _ => None)
}.

Definition schema : Schema := {|
  citadel_Container := container;
  citadel_Image := image;
  citadel_Engine := cluster_engine;
  citadel_ClusterInfo := opaque;
  shipyard_Engine := engine;
  shipyard_Event := opaque;
  shipyard_Account := opaque;
  shipyard_Role := opaque;
  shipyard_AuthToken := opaque;
  shipyard_ServiceKey := service_key;
  Marshal_map := map_Marshaler;
  Container_ID := ID;
  Engine_Engine := Engine;
  Engine_ID := EngineID;
  ServiceKey_Description := fun d => {| Key := ""; Description := d |}
|}.

(** A server that accepts every request and answers it with [answer]. *)
Definition server (answer : Request -> Response + error) : Transport := {|
  NewRequest_check := fun _ _ => None;
  RoundTrip := fun _ req => answer req
|}.

(** A response with the given status and body, read to its end without
    error. *)
Definition response (status : Z) (body : string) : Response :=
  {| StatusCode := status; Body := {| pending := json_text body; fault := None |} |}.

(** A response whose body breaks off with a read error after [body]. *)
Definition broken_response (status : Z) (body : string) : Response :=
  {| StatusCode := status;
     Body := {| pending := json_text body; fault := Some (foreign "connection reset by peer") |} |}.

Definition by_token : ShipyardConfig :=
  {| Url := "http://shipyard:8080"; ServiceKey := ""; Username := "admin"; Token := "s3cret" |}.

Definition by_service_key : ShipyardConfig :=
  {| Url := "http://shipyard:8080"; ServiceKey := "k-42"; Username := "admin"; Token := "s3cret" |}.

(** A fresh client for a configuration. *)
Definition client (cfg : ShipyardConfig) : World :=
  {| self := NewManager (Some cfg); wire := [] |}.

Definition nginx : image := {| Name := "nginx" |}.

End Scenario.

(** ** Deployments that fail *)

Module Faults.

(** A transport whose [http.NewRequest] rejects a URL that begins with a
    colon (no scheme before it), and that otherwise answers with [answer]. *)
Definition strict_server (answer : Request -> Response + error) : Transport := {|
  NewRequest_check := fun _ url =>
    match url with
    | String ":" _ => Some (foreign "missing protocol scheme")
    | _ => None
    end;
  RoundTrip := fun _ req => answer req
|}.

(** A configuration whose base URL lacks its scheme and host. *)
Definition no_scheme : ShipyardConfig :=
  {| Url := ":8080"; ServiceKey := EmptyString; Username := "admin"; Token := "s3cret" |}.

(** The schema of the scenarios with an image that cannot be encoded. *)
Definition unencodable_image : Schema := {|
  citadel_Container := Scenario.container;
  citadel_Image := Scenario.image;
  citadel_Engine := Scenario.cluster_engine;
  citadel_ClusterInfo := Scenario.opaque;
  shipyard_Engine := Scenario.engine;
  shipyard_Event := Scenario.opaque;
  shipyard_Account := Scenario.opaque;
  shipyard_Role := Scenario.opaque;
  shipyard_AuthToken := Scenario.opaque;
  shipyard_ServiceKey := Scenario.service_key;
  Marshal_map := Scenario.map_Marshaler;
  Container_ID := Scenario.ID;
  Engine_Engine := Scenario.Engine;
  Engine_ID := Scenario.EngineID;
  ServiceKey_Description := fun d => {| Scenario.Key := EmptyString; Scenario.Description := d |};
  Marshal_Container := Scenario.container_Marshaler;
  Marshal_Image := fun _ => ([], Some (foreign "json: unsupported value: NaN"));
  Marshal_Engine := Scenario.engine_Marshaler;
  Marshal_Account := Scenario.opaque_Marshaler;
  Marshal_ServiceKey := Scenario.service_key_Marshaler;
  Unmarshal_Container := Scenario.container_Unmarshaler;
  Unmarshal_ClusterInfo := Scenario.opaque_Unmarshaler;
  Unmarshal_Engine := Scenario.engine_Unmarshaler;
  Unmarshal_Event := Scenario.opaque_Unmarshaler;
  Unmarshal_Account := Scenario.opaque_Unmarshaler;
  Unmarshal_Role := Scenario.opaque_Unmarshaler;
  Unmarshal_AuthToken := Scenario.opaque_Unmarshaler;
  Unmarshal_ServiceKey := Scenario.service_key_Unmarshaler
|}.

(** A client that was given no configuration. *)
Definition unconfigured : World :=
  {| self := NewManager None; wire := [] |}.

End Faults.

(** * Properties *)

(** ** Formatting *)

Lemma append_empty_r (s : string) : s ++ "" = s.
Proof.
  induction s as [|c s IH]; simpl; [reflexivity | now rewrite IH].
Qed.

Lemma Sprintf_concat (a b : string) :
  Sprintf "%s%s" [a_string a; a_string b] = a ++ b.
Proof.
  cbn. now rewrite append_empty_r.
Qed.

Lemma Sprintf_colon (a b : string) :
  Sprintf "%s:%s" [a_string a; a_string b] = a ++ ":" ++ b.
Proof.
  cbn. now rewrite append_empty_r.
Qed.

(** ** The scanner always has fuel enough *)

Lemma skip_space_length (s : bytes) : (List.length (skip_space s) <= List.length s)%nat.
Proof.
  induction s as [|c s IH]; cbn; [lia|].
  destruct (isSpace c); cbn; lia.
Qed.

Lemma scan_literal_within (lit s : bytes) :
  scan_within (scan_literal lit s) (List.length s).
Proof.
  revert s. induction lit as [|c lit IH]; intros s; cbn; [lia|].
  destruct s as [|d s]; cbn; [exact I|].
  destruct (Byte.eqb c d); [|exact I].
  specialize (IH s). destruct (scan_literal lit s); cbn in *; auto.
Qed.

Lemma scan_number_within (st : numstate) (acc s : bytes) :
  scan_within (scan_number st acc s) (List.length s).
Proof.
  revert st acc. induction s as [|c s IH]; intros st acc.
  - destruct st; cbn; auto.
  - assert (Hstep : forall st' acc',
               scan_within (scan_number st' acc' s) (List.length (c :: s))).
    { intros st' acc'. specialize (IH st' acc').
      destruct (scan_number st' acc' s); cbn in *; auto. }
    destruct st; cbn [scan_number];
      repeat match goal with
             | |- context [if ?b then _ else _] => destruct b
             end;
      solve [apply Hstep | exact I | cbn; lia].
Qed.

Lemma scan_string_within (s acc : bytes) :
  scan_within (scan_string acc s) (List.length s - 1).
Proof.
  remember (List.length s) as n eqn:Hn.
  revert s acc Hn. induction n as [n IH] using lt_wf_ind. intros s acc Hn.
  assert (Hstep : forall s' acc', (List.length s' < n)%nat ->
                                  scan_within (scan_string acc' s') (n - 1)).
  { intros s' acc' Hlt. specialize (IH _ Hlt s' acc' eq_refl).
    destruct (scan_string acc' s'); cbn in *; auto. lia. }
  destruct s as [|c s]; [exact I|]. cbn [scan_string].
  destruct (Byte.eqb c quote); [cbn in *; lia|].
  destruct (Byte.eqb c backslash).
  - destruct s as [|e s]; [exact I|].
    destruct (isSimpleEscape e); [apply Hstep; cbn in *; lia|].
    destruct (Byte.eqb e "u"); [|exact I].
    destruct s as [|h1 [|h2 [|h3 [|h4 s]]]];
      try (match goal with |- context [if ?b then _ else _] => destruct b end; exact I).
    destruct (isHex h1 && isHex h2 && isHex h3 && isHex h4); [|exact I].
    apply Hstep. cbn in *. lia.
  - destruct (code c <? 32)%N; [exact I|]. apply Hstep. cbn in *. lia.
Qed.

Lemma scan_within_map {A B : Type} (f : A -> B) (r : scan A) (n m : nat) :
  scan_within r n -> (n <= m)%nat ->
  scan_within match r with
              | scanned a rest => scanned (f a) rest
              | scan_more => scan_more
              | scan_invalid => scan_invalid
              | scan_fuel => scan_fuel
              end m.
Proof.
  destruct r; cbn; auto. lia.
Qed.

Lemma scan_levels_within (fuel : nat) :
  (forall s, (2 * List.length s < fuel)%nat ->
             scan_within (scan_value fuel s) (List.length s - 1))
  /\ (forall s, (2 * List.length s + 1 < fuel)%nat ->
                scan_within (scan_elements fuel s) (List.length s - 1))
  /\ (forall s, (2 * List.length s + 1 < fuel)%nat ->
                scan_within (scan_members fuel s) (List.length s - 1)).
Proof.
  induction fuel as [|fuel (IHv & IHe & IHm)]; [repeat split; intros; lia|].
  assert (Hafter : forall (A : Type) (v : A) (r : bytes) (n : nat)
                     (more : bytes -> scan (list A)),
             (forall r', (List.length r' + 2 <= n)%nat ->
                         scan_within (more r') (List.length r' - 1)) ->
             (List.length r + 1 <= n)%nat -> forall close : byte,
             scan_within
               match skip_space r with
               | [] => scan_more
               | c :: r' =>
                   if Byte.eqb c ","
                   then match more r' with
                        | scanned vs r'' => scanned (v :: vs) r''
                        | other => other
                        end
                   else if Byte.eqb c close then scanned [v] r'
                   else scan_invalid
               end (n - 1)).
  { intros A v r n more Hmore Hr close.
    pose proof (skip_space_length r) as Hs.
    destruct (skip_space r) as [|c r']; [exact I|]. cbn [List.length] in Hs.
    destruct (Byte.eqb c ",").
    - specialize (Hmore r' ltac:(lia)).
      destruct (more r'); cbn in *; auto. lia.
    - destruct (Byte.eqb c close); cbn; [lia | exact I]. }
  split; [|split].
  - intros s Hlen. cbn [scan_value].
    pose proof (skip_space_length s) as Hs.
    destruct (skip_space s) as [|c s']; [exact I|]. cbn [List.length] in Hs.
    destruct (Byte.eqb c "[").
    { pose proof (skip_space_length s') as Hs'.
      destruct (skip_space s') as [|d s'']; [exact I|]. cbn [List.length] in Hs'.
      destruct (Byte.eqb d "]"); [cbn; lia|].
      apply scan_within_map with (n := (List.length (d :: s'') - 1)%nat).
      - apply IHe. cbn [List.length]. lia.
      - cbn [List.length]. lia. }
    destruct (Byte.eqb c "{").
    { pose proof (skip_space_length s') as Hs'.
      destruct (skip_space s') as [|d s'']; [exact I|]. cbn [List.length] in Hs'.
      destruct (Byte.eqb d "}"); [cbn; lia|].
      apply scan_within_map with (n := (List.length (d :: s'') - 1)%nat).
      - apply IHm. cbn [List.length]. lia.
      - cbn [List.length]. lia. }
    destruct (Byte.eqb c quote).
    { apply scan_within_map with (n := (List.length s' - 1)%nat);
        [apply scan_string_within | lia]. }
    destruct (Byte.eqb c "-").
    { apply scan_within_map with (n := List.length s');
        [apply scan_number_within | lia]. }
    destruct (isDigit c).
    { apply scan_within_map with (n := List.length s');
        [apply scan_number_within | lia]. }
    destruct (Byte.eqb c "t").
    { apply scan_within_map with (f := fun _ : unit => JBool true) (n := List.length s');
        [apply scan_literal_within | lia]. }
    destruct (Byte.eqb c "f").
    { apply scan_within_map with (f := fun _ : unit => JBool false) (n := List.length s');
        [apply scan_literal_within | lia]. }
    destruct (Byte.eqb c "n").
    { apply scan_within_map with (f := fun _ : unit => JNull) (n := List.length s');
        [apply scan_literal_within | lia]. }
    exact I.
  - intros s Hlen. cbn [scan_elements].
    specialize (IHv s ltac:(lia)).
    destruct (scan_value fuel s) as [v r| | |]; cbn in IHv; try exact I; [|contradiction].
    destruct s as [|c0 s0]; [cbn in IHv, Hlen|].
    + apply (Hafter JSON v r 1%nat (scan_elements fuel)); [intros; lia | lia].
    + apply (Hafter JSON v r (List.length (c0 :: s0)) (scan_elements fuel)).
      * intros r' Hr'. apply IHe. cbn [List.length] in *. lia.
      * cbn [List.length] in *. lia.
  - intros s Hlen. cbn [scan_members].
    pose proof (skip_space_length s) as Hs.
    destruct (skip_space s) as [|q s1]; [exact I|]. cbn [List.length] in Hs.
    destruct (Byte.eqb q quote); [|exact I].
    pose proof (scan_string_within s1 []) as Hkey.
    destruct (scan_string [] s1) as [key s2| | |]; cbn in Hkey; try exact I; [|contradiction].
    pose proof (skip_space_length s2) as Hs2.
    destruct (skip_space s2) as [|colon s3]; [exact I|]. cbn [List.length] in Hs2.
    destruct (Byte.eqb colon ":"); [|exact I].
    specialize (IHv s3 ltac:(lia)).
    destruct (scan_value fuel s3) as [v r| | |]; cbn in IHv; try exact I; [|contradiction].
    apply (Hafter (bytes * JSON)%type (key, v) r (List.length s) (scan_members fuel)).
    + intros r' Hr'. apply IHm. lia.
    + lia.
Qed.

(** [scan_first] never stops for lack of fuel: it finds a value and leaves
    less input than it was given, or reports the input incomplete or
    invalid. *)
Lemma scan_value_fuel (s : bytes) : scan_within (scan_first s) (List.length s - 1).
Proof.
  unfold scan_first, fuel_for.
  apply (proj1 (scan_levels_within (2 * List.length s + 2))). lia.
Qed.

(** ** The request pipeline *)

Lemma app_one_neq {A : Type} (l : list A) (x : A) : l <> (l ++ [x])%list.
Proof.
  intro E. apply (f_equal (@List.length A)) in E.
  rewrite length_app in E. simpl in E. lia.
Qed.

Lemma app_one_inj {A : Type} (l : list A) (x y : A) :
  (l ++ [x] = l ++ [y])%list -> x = y.
Proof.
  intro E. apply app_inv_head in E. congruence.
Qed.

Section Pipeline.

Context `{Transport}.

(** [doRequest] step by step: it panics on a nil configuration, returns the
    error of a request that cannot be built without sending anything, and
    otherwise sends the prescribed request once and interprets the answer. *)
Lemma doRequest_run (path method : string) (expectedStatus : Z) (b : bytes) (w : World) :
  doRequest path method expectedStatus b w =
  match config (self w) with
  | None => (panics, w)
  | Some cfg =>
      match NewRequest_check method (Url cfg ++ path) with
      | Some err => (returns (None, Some err), w)
      | None =>
          let req := spec_request cfg path method b in
          (returns (spec_verdict expectedStatus (RoundTrip (wire w) req)),
           {| self := self w; wire := wire w ++ [req] |})
      end
  end.
Proof.
  unfold doRequest, buildUrl, bind, receiver, deref, ret, http_NewRequest, http_Do.
  destruct (config (self w)) as [cfg|] eqn:Hcfg; [|reflexivity].
  rewrite Sprintf_concat.
  destruct (NewRequest_check method (Url cfg ++ path)); [reflexivity|].
  rewrite Hcfg.
  unfold spec_request, spec_auth_header, spec_verdict, ioutil_ReadAll, Header_Add.
  rewrite Sprintf_colon. cbn [self wire Method URL Header ReqBody app].
  destruct (String.eqb (ServiceKey cfg) ""); cbn [negb].
  all: match goal with
       | |- context [RoundTrip ?l ?r] => destruct (RoundTrip l r) as [resp|err]
       end; [|reflexivity].
  all: destruct (StatusCode resp =? 401); [reflexivity|].
  all: destruct (StatusCode resp =? expectedStatus); cbn [negb]; [reflexivity|].
  all: destruct (fault (Body resp)); reflexivity.
Qed.

(** A call of [doRequest] that reached the transport had a configuration,
    built its request, and sent the prescribed one. *)
Lemma doRequest_answered (path method : string) (expectedStatus : Z) (b : bytes)
  (w : World) (req : Request) (resp : Response) :
  answered (doRequest path method expectedStatus b) w req resp ->
  exists cfg,
    config (self w) = Some cfg /\
    NewRequest_check method (Url cfg ++ path) = None /\
    req = spec_request cfg path method b /\
    doRequest path method expectedStatus b w =
      (returns (spec_verdict expectedStatus (inl resp)),
       {| self := self w; wire := wire w ++ [req] |}).
Proof.
  intros [Hwire Hresp]. rewrite doRequest_run in Hwire |- *.
  destruct (config (self w)) as [cfg|]; cbn in Hwire.
  2: now apply app_one_neq in Hwire.
  destruct (NewRequest_check method (Url cfg ++ path)) eqn:Hchk; cbn in Hwire.
  1: now apply app_one_neq in Hwire.
  apply app_one_inj in Hwire. subst req.
  exists cfg. split; [reflexivity|]. split; [exact Hchk|]. split; [reflexivity|].
  cbv zeta. now rewrite Hresp.
Qed.

End Pipeline.

Section Executor.

Context `{Transport}.

Lemma verdict_unauthorized (expectedStatus : Z) (resp : Response) :
  StatusCode resp = 401 ->
  spec_verdict expectedStatus (inl resp) = (Some resp, Some ErrUnauthorized).
Proof.
  intro E. unfold spec_verdict. now rewrite E.
Qed.

Lemma verdict_expected (expectedStatus : Z) (resp : Response) :
  StatusCode resp = expectedStatus -> StatusCode resp <> 401 ->
  spec_verdict expectedStatus (inl resp) = (Some resp, None).
Proof.
  intros E N. unfold spec_verdict.
  apply Z.eqb_neq in N. rewrite N.
  apply Z.eqb_eq in E. now rewrite E.
Qed.

Lemma verdict_unexpected (expectedStatus : Z) (resp : Response) :
  StatusCode resp <> 401 -> StatusCode resp <> expectedStatus ->
  spec_verdict expectedStatus (inl resp) =
  match fault (Body resp) with
  | Some err => (None, Some err)
  | None =>
      (Some {| StatusCode := StatusCode resp; Body := drained (Body resp) |},
       Some (errors_New (string_of_list_byte (pending (Body resp)))))
  end.
Proof.
  intros N1 N2. unfold spec_verdict.
  apply Z.eqb_neq in N1, N2. now rewrite N1, N2.
Qed.

(** C1.  Whenever the response to a request has status 401, [doRequest]
    returns that response with the sentinel [ErrUnauthorized], whatever
    status the caller expects (401 included): the test for 401 comes before
    the comparison with the expected status, so the error is never the one
    made from the body text. *)
Theorem unauthorized_before_expected_status
  (path method : string) (expectedStatus : Z) (b : bytes)
  (w : World) (req : Request) (resp : Response) :
  answered (doRequest path method expectedStatus b) w req resp ->
  StatusCode resp = 401 ->
  fst (doRequest path method expectedStatus b w) = returns (Some resp, Some ErrUnauthorized)
  /\ forall text, ErrUnauthorized <> errors_New text.
Proof.
  intros Hans Hst.
  destruct (doRequest_answered Hans) as (cfg & _ & _ & _ & Hrun).
  rewrite Hrun. cbn [fst]. rewrite verdict_unauthorized by assumption.
  split; [reflexivity | discriminate].
Qed.

(** C2.  A call of [doRequest] sends at most one request, and exactly one
    when the request can be built; every request it sends carries exactly
    one header: [X-Service-Key] with the service key when the configured
    key is not empty (so no [X-Access-Token] beside it), and otherwise
    [X-Access-Token] with the username and the token joined by a colon, also
    when both are empty. *)
Theorem one_authentication_header
  (path method : string) (expectedStatus : Z) (b : bytes) (w : World) (cfg : ShipyardConfig) :
  config (self w) = Some cfg ->
  exists sent : list Request,
    wire (snd (doRequest path method expectedStatus b w)) = (wire w ++ sent)%list /\
    (List.length sent <= 1)%nat /\
    (NewRequest_check method (Url cfg ++ path) = None -> List.length sent = 1%nat) /\
    Forall (fun req =>
              List.length (Header req) = 1%nat /\
              (ServiceKey cfg <> "" ->
               Header req = [("X-Service-Key", ServiceKey cfg)]) /\
              (ServiceKey cfg = "" ->
               Header req = [("X-Access-Token", Username cfg ++ ":" ++ Token cfg)]))
           sent.
Proof.
  intro Hcfg. rewrite doRequest_run, Hcfg.
  destruct (NewRequest_check method (Url cfg ++ path)) eqn:Hchk.
  - exists []. cbn. rewrite app_nil_r. repeat split; auto. discriminate.
  - exists [spec_request cfg path method b]. cbn.
    split; [reflexivity|]. split; [lia|]. split; [reflexivity|].
    constructor; [|constructor].
    unfold spec_request, spec_auth_header. cbn [Header].
    destruct (String.eqb (ServiceKey cfg) "") eqn:E.
    + apply String.eqb_eq in E. repeat split; intros; cbn; congruence.
    + apply String.eqb_neq in E. repeat split; intros; cbn; congruence.
Qed.

(** C3.  Whenever the response to a request has the expected status, and
    that status is not 401, [doRequest] returns a nil error together with
    the very response the transport delivered: its body has not been read. *)
Theorem expected_status_hands_over_response
  (path method : string) (expectedStatus : Z) (b : bytes)
  (w : World) (req : Request) (resp : Response) :
  answered (doRequest path method expectedStatus b) w req resp ->
  StatusCode resp = expectedStatus ->
  StatusCode resp <> 401 ->
  fst (doRequest path method expectedStatus b w) = returns (Some resp, None).
Proof.
  intros Hans Hst Hno.
  destruct (doRequest_answered Hans) as (cfg & _ & _ & _ & Hrun).
  rewrite Hrun. cbn [fst]. now rewrite verdict_expected.
Qed.

(** C4, as amended.  Whenever the response to a request has a status that
    is neither 401 nor the expected one, and its body can be read to the
    end without error, [doRequest] fails with the error made by
    [errors.New] from the whole body, byte for byte, and returns the
    response with its body consumed. *)
Theorem unexpected_status_carries_body
  (path method : string) (expectedStatus : Z) (b : bytes)
  (w : World) (req : Request) (resp : Response) :
  answered (doRequest path method expectedStatus b) w req resp ->
  StatusCode resp <> 401 ->
  StatusCode resp <> expectedStatus ->
  fault (Body resp) = None ->
  fst (doRequest path method expectedStatus b w) =
  returns (Some {| StatusCode := StatusCode resp; Body := drained (Body resp) |},
           Some (errors_New (string_of_list_byte (pending (Body resp))))).
Proof.
  intros Hans N1 N2 Hread.
  destruct (doRequest_answered Hans) as (cfg & _ & _ & _ & Hrun).
  rewrite Hrun. cbn [fst]. rewrite verdict_unexpected by assumption.
  now rewrite Hread.
Qed.

(** C5.  [buildUrl] returns the configured base URL followed by the path,
    nothing added, removed or escaped, and that string is the URL of the
    request [doRequest] sends. *)
Theorem url_is_base_then_path (path : string) (w : World) (cfg : ShipyardConfig) :
  config (self w) = Some cfg ->
  buildUrl path w = (returns (Url cfg ++ path), w)
  /\ forall method expectedStatus b req,
       wire (snd (doRequest path method expectedStatus b w)) = (wire w ++ [req])%list ->
       URL req = Url cfg ++ path.
Proof.
  intro Hcfg. split.
  - unfold buildUrl, bind, receiver, deref, ret. rewrite Hcfg.
    now rewrite Sprintf_concat.
  - intros method expectedStatus b req Hwire.
    rewrite doRequest_run, Hcfg in Hwire.
    destruct (NewRequest_check method (Url cfg ++ path)); cbn in Hwire.
    + now apply app_one_neq in Hwire.
    + apply app_one_inj in Hwire. now subst req.
Qed.

(** C9.  Whenever the response to a request has a status that is neither
    401 nor the expected one and reading its body fails, [doRequest]
    returns a nil response and the read error itself, which is not an error
    made from body text unless the reader reported such a value. *)
Theorem read_failure_is_returned
  (path method : string) (expectedStatus : Z) (b : bytes)
  (w : World) (req : Request) (resp : Response) (err : error) :
  answered (doRequest path method expectedStatus b) w req resp ->
  StatusCode resp <> 401 ->
  StatusCode resp <> expectedStatus ->
  fault (Body resp) = Some err ->
  fst (doRequest path method expectedStatus b w) = returns (None, Some err).
Proof.
  intros Hans N1 N2 Hread.
  destruct (doRequest_answered Hans) as (cfg & _ & _ & _ & Hrun).
  rewrite Hrun. cbn [fst]. rewrite verdict_unexpected by assumption.
  now rewrite Hread.
Qed.

End Executor.

(** ** The operations *)

Section Calls.

Context `{Transport} `{Schema}.

Lemma bind_silent_world {A B : Type} (c : M A) (k : A -> M B) (w : World) :
  silent k -> snd (bind c k w) = snd (c w).
Proof.
  intro Hk. unfold bind. destruct (c w) as [[a|] w']; cbn; [apply Hk | reflexivity].
Qed.

(** An operation that goes on silently after [doRequest] and reached the
    transport continues with the verdict on the response. *)
Lemma bind_doRequest_answered {B : Type}
  (path method : string) (expectedStatus : Z) (b : bytes)
  (k : ptr Response * option error -> M B) (w : World) (req : Request) (resp : Response) :
  silent k ->
  answered (bind (doRequest path method expectedStatus b) k) w req resp ->
  fst (bind (doRequest path method expectedStatus b) k w) =
  fst (k (spec_verdict expectedStatus (inl resp))
         {| self := self w; wire := wire w ++ [req] |}).
Proof.
  intros Hk [Hwire Hresp].
  rewrite bind_silent_world in Hwire by assumption.
  destruct (doRequest_answered (conj Hwire Hresp)) as (cfg & _ & _ & _ & Hrun).
  unfold bind. now rewrite Hrun.
Qed.

Ltac silent_cont :=
  unfold silent; intros [r [e|]] w0; [reflexivity|];
  destruct r as [resp0|]; [|reflexivity];
  cbn; try reflexivity;
  match goal with
  | |- context [Decode ?r ?v] => destruct (Decode r v) as [? [?|]]
  end; reflexivity.

Lemma answered_ret {A : Type} (x : A) (w : World) (req : Request) (resp : Response) :
  answered (ret x) w req resp -> False.
Proof.
  intros [Hwire _]. cbn in Hwire. now apply app_one_neq in Hwire.
Qed.

Lemma answered_deref {A B : Type} (p : ptr A) (k : A -> M B)
  (w : World) (req : Request) (resp : Response) :
  answered (bind (deref p) k) w req resp ->
  exists x, p = Some x /\ answered (k x) w req resp.
Proof.
  destruct p as [x|]; intros [Hwire Hresp].
  - exists x. split; [reflexivity|]. split; assumption.
  - cbn in Hwire. now apply app_one_neq in Hwire.
Qed.

Lemma bind_deref {A B : Type} (x : A) (k : A -> M B) (w : World) :
  bind (deref (Some x)) k w = k x w.
Proof.
  reflexivity.
Qed.

(** The steps before the request: a failed encoding or a nil argument
    ends the operation before anything is sent. *)
Ltac prelude Hans :=
  repeat first
    [ match type of Hans with
      | answered (let (_, _) := ?m in _) _ _ _ =>
          destruct m as [? [?|]]; [now apply answered_ret in Hans|]
      end
    | match type of Hans with
      | answered (bind (deref ?p) _) _ _ _ =>
          let x := fresh "x" in
          let E := fresh "E" in
          apply answered_deref in Hans; destruct Hans as (x & E & Hans);
          rewrite E; rewrite bind_deref
      end ].

Ltac after_request Hans :=
  match type of Hans with
  | answered (bind _ ?k) _ _ _ =>
      let Hk := fresh "Hk" in
      assert (Hk : silent k) by silent_cont;
      rewrite (bind_doRequest_answered Hk Hans)
  end.

(** C10.  For each of [Destroy], [AddEngine], [RemoveEngine],
    [AddAccount], [DeleteAccount], [ChangePassword] and [RemoveServiceKey]:
    once the transport answered the request with the status the operation
    expects, the operation returns a nil error whatever the body of the
    response holds, well-formed or not, readable or not; the body is neither
    read nor decoded. *)
Theorem commands_ignore_response_body (c : command) (w : World) (req : Request) (resp : Response) :
  answered (command_call c) w req resp ->
  StatusCode resp = command_status c ->
  fst (command_call c w) = returns None.
Proof.
  intros Hans Hst.
  assert (Hno : StatusCode resp <> 401) by (rewrite Hst; destruct c; discriminate).
  destruct c; cbn [command_call command_status] in *.
  all: unfold Destroy, AddEngine, RemoveEngine, AddAccount, DeleteAccount,
         ChangePassword, RemoveServiceKey in *.
  all: prelude Hans.
  all: after_request Hans.
  all: now rewrite verdict_expected.
Qed.

(** ** The receiver is only read *)

Lemma keeps_self_ret {A : Type} (x : A) : keeps_self (ret x).
Proof.
  intro w. reflexivity.
Qed.

Lemma keeps_self_deref {A : Type} (p : ptr A) : keeps_self (deref p).
Proof.
  intro w. destruct p; reflexivity.
Qed.

Lemma keeps_self_receiver : keeps_self receiver.
Proof.
  intro w. reflexivity.
Qed.

Lemma keeps_self_http_Do (req : Request) : keeps_self (http_Do req).
Proof.
  intro w. reflexivity.
Qed.

Lemma keeps_self_bind {A B : Type} (c : M A) (k : A -> M B) :
  keeps_self c -> (forall x, keeps_self (k x)) -> keeps_self (bind c k).
Proof.
  intros Hc Hk w. unfold bind. specialize (Hc w).
  destruct (c w) as [[a|] w']; cbn in *.
  - now rewrite Hk.
  - assumption.
Qed.

Create HintDb receiver_kept.

#[local] Hint Resolve keeps_self_ret keeps_self_deref keeps_self_receiver
  keeps_self_http_Do : receiver_kept.

(** Goes through a computation: a bind by its two parts, a case
    distinction by its branches. *)
Ltac keeps :=
  repeat first
    [ solve [auto with receiver_kept]
    | apply keeps_self_bind; [|intros]
    | match goal with
      | |- keeps_self (match ?x with _ => _ end) => destruct x
      end ].

Lemma keeps_self_buildUrl (path : string) : keeps_self (buildUrl path).
Proof.
  unfold buildUrl. keeps.
Qed.

Lemma keeps_self_doRequest (path method : string) (expectedStatus : Z) (b : bytes) :
  keeps_self (doRequest path method expectedStatus b).
Proof.
  unfold doRequest.
  apply keeps_self_bind; [apply keeps_self_buildUrl|]. intros url.
  cbv zeta. keeps.
Qed.

#[local] Hint Resolve keeps_self_buildUrl keeps_self_doRequest : receiver_kept.

(** C8.  No public operation, on any input and in any state, changes the
    [Manager] it is called on or the configuration the manager points to:
    base URL, service key, username and token are after the call what they
    were before it. *)
Theorem operations_keep_configuration (op : operation) (w : World) :
  self (world_after op w) = self w.
Proof.
  destruct op; cbn [world_after].
  all: refine ((_ : keeps_self _) w).
  all: unfold Containers, Run, Destroy, Engines, AddEngine, RemoveEngine, GetContainer,
         GetEngine, Info, Events, Accounts, Roles, Role, AddAccount, DeleteAccount,
         Login, ChangePassword, ServiceKeys, NewServiceKey, RemoveServiceKey.
  all: keeps.
Qed.

(** ** Decoding lists *)

Lemma Decode_empty_array {T : Type} `{Unmarshaler T} (r : Reader) (v : slice T) (rest : bytes) :
  scan_first (pending r) = scanned (JArray []) rest ->
  Decode r v = (mk_slice [], None).
Proof.
  intro E. unfold Decode. rewrite E. cbn.
  destruct rest; reflexivity.
Qed.

Lemma Decode_no_value {T : Type} `{Unmarshaler T} (r : Reader) (v : T) :
  scan_first (pending r) = scan_more \/ scan_first (pending r) = scan_invalid ->
  exists err, Decode r v = (v, Some err).
Proof.
  intros [E|E]; unfold Decode; rewrite E.
  - destruct (fault r); [eauto|]. destruct (skip_space (pending r)); eauto.
  - eauto.
Qed.

Lemma Decode_not_a_list {T : Type} `{Unmarshaler T} (r : Reader) (v : slice T)
  (j : JSON) (rest : bytes) :
  scan_first (pending r) = scanned j rest ->
  j <> JNull -> (forall js, j <> JArray js) ->
  exists err, Decode r v = (v, Some err).
Proof.
  intros E Hnull Harr. unfold Decode. rewrite E.
  destruct j; try congruence; try (now destruct (Harr elems)).
  all: cbn; destruct rest; destruct (fault r); eauto.
Qed.

(** Elements stored into an empty slice are each stored into a zero
    value, in the order of the array. *)
Lemma unmarshal_elements_fresh {T : Type} `{Unmarshaler T} (js : list JSON) (xs : list T) :
  Forall2 (fun j x => unmarshal j zero = inl x) js xs ->
  unmarshal_elements js [] = inl xs.
Proof.
  induction 1 as [|j x js xs Hj _ IH]; cbn; [reflexivity|].
  rewrite Hj. cbn in IH. now rewrite IH.
Qed.

Lemma Decode_array {T : Type} `{Unmarshaler T} (r : Reader) (v : slice T)
  (js : list JSON) (rest : bytes) (xs : list T) :
  scan_first (pending r) = scanned (JArray js) rest ->
  v = nil_slice \/ v = mk_slice [] ->
  Forall2 (fun j x => unmarshal j zero = inl x) js xs ->
  Decode r v = (mk_slice xs, None).
Proof.
  intros E Hv Hxs. unfold Decode. rewrite E.
  assert (Hu : unmarshal (JArray js) v = inl (mk_slice xs)).
  { cbn. destruct Hv; subst v; now rewrite (unmarshal_elements_fresh Hxs). }
  cbn [is_scalar]. destruct rest; rewrite Hu; reflexivity.
Qed.

(** A list operation whose request was answered with the status it expects
    returns what decoding the body into its variable gives. *)
Lemma list_call_answered (l : listing) (w : World) (req : Request) (resp : Response) :
  answered (list_call l) w req resp ->
  StatusCode resp = list_status l ->
  fst (list_call l w) = returns (decoded_list (Decode (Body resp) (list_variable l))).
Proof.
  intros Hans Hst.
  assert (Hno : StatusCode resp <> 401) by (rewrite Hst; destruct l; discriminate).
  destruct l; cbn [list_call list_status list_variable listed] in *.
  all: unfold Containers, Run, Engines, Events, Accounts, Roles, ServiceKeys in *.
  all: prelude Hans.
  all: after_request Hans.
  all: rewrite verdict_expected by assumption.
  all: cbn.
  all: match goal with
       | |- context [Decode ?r ?v] => destruct (Decode r v) as [? [?|]]
       end; reflexivity.
Qed.

(** C6, as amended.  For each of [Containers], [Run], [Engines], [Events],
    [Accounts], [Roles] and [ServiceKeys], once the request was answered
    with the status the operation expects (200, or 201 for [Run]):
    - a body that is [[]], or begins with an empty array, gives an empty
      slice that is not nil, and a nil error; what follows the first JSON
      value of the body is not looked at;
    - a body that is absent (empty), or does not begin with a complete
      well-formed JSON value, gives a nil slice and an error;
    - a body whose first value is neither an array nor [null] gives a nil
      slice and an error. *)
Theorem lists_decode_first_value (l : listing) (w : World) (req : Request) (resp : Response) :
  answered (list_call l) w req resp ->
  StatusCode resp = list_status l ->
  (pending (Body resp) = list_byte_of_string "[]" ->
   exists s, fst (list_call l w) = returns (s, None) /\ is_nil s = false /\ len s = 0)
  /\ (forall rest, scan_first (pending (Body resp)) = scanned (JArray []) rest ->
      fst (list_call l w) = returns (mk_slice [], None))
  /\ (pending (Body resp) = [] ->
      exists err, fst (list_call l w) = returns (nil_slice, Some err))
  /\ (scan_first (pending (Body resp)) = scan_more
      \/ scan_first (pending (Body resp)) = scan_invalid ->
      exists err, fst (list_call l w) = returns (nil_slice, Some err))
  /\ (forall j rest, scan_first (pending (Body resp)) = scanned j rest ->
      j <> JNull -> (forall js, j <> JArray js) ->
      exists err, fst (list_call l w) = returns (nil_slice, Some err)).
Proof.
  intros Hans Hst. rewrite (@list_call_answered l w req resp Hans Hst).
  split; [|split; [|split; [|split]]].
  - intro E. exists (mk_slice []). split; [|split; reflexivity].
    rewrite (@Decode_empty_array _ _ (Body resp) (list_variable l) []); [reflexivity|].
    now rewrite E.
  - intros rest E. now rewrite (@Decode_empty_array _ _ (Body resp) (list_variable l) rest E).
  - intro E.
    destruct (Decode_no_value (Body resp) (list_variable l)) as [err Herr].
    { left. now rewrite E. }
    exists err. now rewrite Herr.
  - intro E.
    destruct (Decode_no_value (Body resp) (list_variable l) E) as [err Herr].
    exists err. now rewrite Herr.
  - intros j rest E Hnull Harr.
    destruct (Decode_not_a_list (Body resp) (list_variable l) E Hnull Harr) as [err Herr].
    exists err. now rewrite Herr.
Qed.

(** C7.  [Run(image, 3, true)], given a configuration, an image that
    encodes to [b] and a request that can be built, sends exactly one
    request: a POST to the base URL followed by
    [/api/containers?count=3&pull=true], with [b] as its body.  The status
    it expects is 201: on a response with status 201 whose body begins with
    a JSON array it returns the containers decoded from the elements of the
    array, one for each and in their order; on any other status it returns
    an error and no containers. *)
Theorem run_posts_once_and_keeps_order
  (image : ptr citadel_Image) (b : bytes) (w : World) (cfg : ShipyardConfig) :
  config (self w) = Some cfg ->
  Marshal image = (b, None) ->
  NewRequest_check "POST" (Url cfg ++ "/api/containers?count=3&pull=true") = None ->
  let req := {| Method := "POST";
                URL := Url cfg ++ "/api/containers?count=3&pull=true";
                Header := [spec_auth_header cfg];
                ReqBody := b |} in
  wire (snd (Run image 3 true w)) = (wire w ++ [req])%list
  /\ forall resp, RoundTrip (wire w) req = inl resp ->
       (StatusCode resp = 201 ->
        forall js rest containers,
          scan_first (pending (Body resp)) = scanned (JArray js) rest ->
          Forall2 (fun j c => unmarshal j (None : ptr citadel_Container) = inl c) js containers ->
          fst (Run image 3 true w) = returns (mk_slice containers, None))
       /\ (StatusCode resp <> 201 ->
           exists err, fst (Run image 3 true w) = returns (nil_slice, Some err)).
Proof.
  intros Hcfg Hb Hchk req.
  assert (Hk : silent (fun x : ptr Response * option error =>
                         let (resp, err) := x in
                         match err with
                         | Some _ => ret (nil_slice (T:=ptr citadel_Container), err)
                         | None =>
                             bind (deref resp) (fun resp0 =>
                               let (containers, err1) :=
                                 Decode (Body resp0) (nil_slice (T:=ptr citadel_Container)) in
                               match err1 with
                               | Some _ => ret (nil_slice, err1)
                               | None => ret (containers, None)
                               end)
                         end)) by silent_cont.
  assert (Hrun : doRequest "/api/containers?count=3&pull=true" "POST" 201 b w =
                 (returns (spec_verdict 201 (RoundTrip (wire w) req)),
                  {| self := self w; wire := wire w ++ [req] |})).
  { rewrite doRequest_run, Hcfg, Hchk. reflexivity. }
  unfold Run. rewrite Hb.
  change (Sprintf "/api/containers?count=%d&pull=%v" [a_int 3; a_bool true])
    with "/api/containers?count=3&pull=true".
  split.
  - rewrite bind_silent_world by exact Hk. now rewrite Hrun.
  - intros resp Hresp. unfold bind. rewrite Hrun, Hresp. split.
    + intros Hst js rest containers Hscan Hall.
      rewrite verdict_expected by (rewrite ?Hst; try reflexivity; discriminate).
      cbn. rewrite (Decode_array (Body resp) Hscan (or_introl eq_refl) Hall).
      reflexivity.
    + intro Hst. unfold spec_verdict.
      destruct (StatusCode resp =? 401); [cbn; eauto|].
      apply Z.eqb_neq in Hst. rewrite Hst.
      destruct (fault (Body resp)); cbn; eauto.
Qed.

End Calls.

(** ** The scenarios *)

Import Scenario.

(** A login that expects 200 and is answered 401 is Unauthorized. *)
Lemma unauthorized_before_expected_status_witness :
  fst (@doRequest (server (fun _ => inl (response 401 "denied")))
         "/auth/login" "POST" 200 (json_text "{'username':'alice','password':'secret'}")
         (client by_token))
  = returns (Some (response 401 "denied"), Some ErrUnauthorized).
Proof.
  refine (proj1 (@unauthorized_before_expected_status
                   (server (fun _ => inl (response 401 "denied")))
                   "/auth/login" "POST" 200
                   (json_text "{'username':'alice','password':'secret'}") (client by_token)
                   (spec_request by_token "/auth/login" "POST"
                      (json_text "{'username':'alice','password':'secret'}"))
                   (response 401 "denied") _ _)).
  - split; reflexivity.
  - reflexivity.
Defined.

(** With a service key configured beside a username and a token, the one
    request carries the service key alone. *)
Lemma one_authentication_header_witness :
  exists sent : list Request,
    wire (snd (@doRequest (server (fun _ => inl (response 200 "[]")))
                 "/api/containers" "GET" 200 [] (client by_service_key)))
    = (wire (client by_service_key) ++ sent)%list /\
    (List.length sent <= 1)%nat /\
    (@NewRequest_check (server (fun _ => inl (response 200 "[]"))) "GET"
       (Url by_service_key ++ "/api/containers") = None -> List.length sent = 1%nat) /\
    Forall (fun req =>
              List.length (Header req) = 1%nat /\
              (ServiceKey by_service_key <> "" ->
               Header req = [("X-Service-Key", ServiceKey by_service_key)]) /\
              (ServiceKey by_service_key = "" ->
               Header req = [("X-Access-Token",
                              Username by_service_key ++ ":" ++ Token by_service_key)]))
           sent.
Proof.
  apply (@one_authentication_header (server (fun _ => inl (response 200 "[]")))
           "/api/containers" "GET" 200 [] (client by_service_key) by_service_key).
  reflexivity.
Defined.

(** A listing answered 200 gets the response as the server sent it. *)
Lemma expected_status_hands_over_response_witness :
  fst (@doRequest (server (fun _ => inl (response 200 "[{'id':'a'}]")))
         "/api/containers" "GET" 200 [] (client by_token))
  = returns (Some (response 200 "[{'id':'a'}]"), None).
Proof.
  apply (@expected_status_hands_over_response
           (server (fun _ => inl (response 200 "[{'id':'a'}]")))
           "/api/containers" "GET" 200 [] (client by_token)
           (spec_request by_token "/api/containers" "GET" [])).
  - split; reflexivity.
  - reflexivity.
  - discriminate.
Defined.

(** Destroying container [x1], answered 403 with the body [forbidden],
    fails with the error whose text is [forbidden]. *)
Lemma unexpected_status_carries_body_witness :
  fst (@doRequest (server (fun _ => inl (response 403 "forbidden")))
         "/api/containers/x1" "DELETE" 204 (json_text "{'id':'x1'}") (client by_token))
  = returns (Some {| StatusCode := 403; Body := drained (Body (response 403 "forbidden")) |},
             Some (errors_New "forbidden")).
Proof.
  apply (@unexpected_status_carries_body
           (server (fun _ => inl (response 403 "forbidden")))
           "/api/containers/x1" "DELETE" 204 (json_text "{'id':'x1'}") (client by_token)
           (spec_request by_token "/api/containers/x1" "DELETE" (json_text "{'id':'x1'}"))
           (response 403 "forbidden")).
  - split; reflexivity.
  - discriminate.
  - discriminate.
  - reflexivity.
Defined.

(** The same call when the connection breaks while the body is read: the
    status is neither 401 nor the expected 204, and the error is the read
    error, not one whose text is the body. *)
Lemma unexpected_status_carries_body_counterexample :
  let resp := broken_response 500 "internal error" in
  let T := server (fun _ => inl resp) in
  let req := spec_request by_token "/api/containers/x1" "DELETE" (json_text "{'id':'x1'}") in
  let call := @doRequest T "/api/containers/x1" "DELETE" 204 (json_text "{'id':'x1'}") in
  answered call (client by_token) req resp
  /\ StatusCode resp <> 401
  /\ StatusCode resp <> 204
  /\ fst (call (client by_token)) = returns (None, Some (foreign "connection reset by peer"))
  /\ ~ (exists r text, fst (call (client by_token)) = returns (r, Some (errors_New text))).
Proof.
  cbv zeta. split; [split; reflexivity|].
  split; [discriminate|]. split; [discriminate|]. split; [reflexivity|].
  intros (r & text & E). vm_compute in E. discriminate.
Qed.

(** A doubled slash is kept as it is. *)
Lemma url_is_base_then_path_witness :
  buildUrl "//api/containers"
    {| self := NewManager (Some {| Url := "http://shipyard:8080/"; ServiceKey := "";
                                   Username := ""; Token := "" |});
       wire := [] |}
  = (returns "http://shipyard:8080///api/containers",
     {| self := NewManager (Some {| Url := "http://shipyard:8080/"; ServiceKey := "";
                                    Username := ""; Token := "" |});
        wire := [] |}).
Proof.
  refine (proj1 (@url_is_base_then_path
                   (server (fun _ => inl (response 200 "[]")))
                   "//api/containers"
                   {| self := NewManager (Some {| Url := "http://shipyard:8080/";
                                                  ServiceKey := "";
                                                  Username := ""; Token := "" |});
                      wire := [] |}
                   {| Url := "http://shipyard:8080/"; ServiceKey := "";
                      Username := ""; Token := "" |} _)).
  reflexivity.
Defined.

(** The connection breaking while the body of a 500 response is read. *)
Lemma read_failure_is_returned_witness :
  fst (@doRequest (server (fun _ => inl (broken_response 500 "internal error")))
         "/api/engines" "GET" 200 [] (client by_service_key))
  = returns (None, Some (foreign "connection reset by peer")).
Proof.
  apply (@read_failure_is_returned
           (server (fun _ => inl (broken_response 500 "internal error")))
           "/api/engines" "GET" 200 [] (client by_service_key)
           (spec_request by_service_key "/api/engines" "GET" [])
           (broken_response 500 "internal error")).
  - split; reflexivity.
  - discriminate.
  - discriminate.
  - reflexivity.
Defined.

(** Changing the password, answered 200 with a body that is not JSON. *)
Lemma commands_ignore_response_body_witness :
  fst (@ChangePassword (server (fun _ => inl (broken_response 200 "{not json")))
         schema "hunter2" (client by_token))
  = returns None.
Proof.
  apply (@commands_ignore_response_body
           (server (fun _ => inl (broken_response 200 "{not json")))
           schema (CmdChangePassword "hunter2") (client by_token)
           (spec_request by_token "/account/changepassword" "POST"
              (json_text "{'password':'hunter2'}"))
           (broken_response 200 "{not json")).
  - split; reflexivity.
  - reflexivity.
Defined.

(** [Run], answered 201 with the body [[]], returns an empty slice that is
    not nil. *)
Lemma lists_decode_first_value_witness :
  fst (@Run (server (fun _ => inl (response 201 "[]"))) schema (Some nginx) 1 false
         (client by_token))
  = returns (mk_slice [], None).
Proof.
  refine (proj1 (proj2 (@lists_decode_first_value
                          (server (fun _ => inl (response 201 "[]")))
                          schema (@ListRun schema (Some nginx) 1 false) (client by_token)
                          (spec_request by_token "/api/containers?count=1&pull=false" "POST"
                             (json_text "{'name':'nginx'}"))
                          (response 201 "[]") _ _)) [] _).
  - split; reflexivity.
  - reflexivity.
  - reflexivity.
Defined.

(** [Containers], answered 200 with the body [[]]]: the body is not
    well-formed JSON, and the operation returns an empty list and a nil
    error. *)
Lemma lists_decode_first_value_counterexample :
  let resp := response 200 "[]]" in
  let T := server (fun _ => inl resp) in
  answered (@Containers T schema) (client by_token)
    (spec_request by_token "/api/containers" "GET" []) resp
  /\ StatusCode resp = 200
  /\ well_formed_json (pending (Body resp)) = false
  /\ fst (@Containers T schema (client by_token)) = returns (mk_slice [], None)
  /\ ~ (exists err, fst (@Containers T schema (client by_token)) = returns (nil_slice, Some err)).
Proof.
  cbv zeta. split; [split; reflexivity|].
  split; [reflexivity|]. split; [reflexivity|]. split; [reflexivity|].
  intros (err & E). vm_compute in E. discriminate.
Qed.

(** The scenario of the specification: running [nginx] three times with
    pull, answered 201 with three containers. *)
Lemma run_posts_once_and_keeps_order_witness :
  let body := "[{'id':'a'},{'id':'b'},{'id':'c'}]" in
  let T := server (fun _ => inl (response 201 body)) in
  wire (snd (@Run T schema (Some nginx) 3 true (client by_token)))
  = [{| Method := "POST";
        URL := "http://shipyard:8080/api/containers?count=3&pull=true";
        Header := [("X-Access-Token", "admin:s3cret")];
        ReqBody := json_text "{'name':'nginx'}" |}]
  /\ fst (@Run T schema (Some nginx) 3 true (client by_token))
     = returns (mk_slice [Some {| ID := "a" |}; Some {| ID := "b" |}; Some {| ID := "c" |}],
                None).
Proof.
  intros body T.
  destruct (@run_posts_once_and_keeps_order T schema (Some nginx)
              (json_text "{'name':'nginx'}") (client by_token) by_token
              eq_refl eq_refl eq_refl) as [Hsent Hanswer].
  split; [exact Hsent|].
  destruct (Hanswer (response 201 body) eq_refl) as [Hcreated _].
  apply (Hcreated eq_refl
           [JObject [(list_byte_of_string "id", JString (list_byte_of_string "a"))];
            JObject [(list_byte_of_string "id", JString (list_byte_of_string "b"))];
            JObject [(list_byte_of_string "id", JString (list_byte_of_string "c"))]]
           []).
  - reflexivity.
  - repeat constructor.
Defined.

(** * Further properties *)

(** ** Every operation follows its plan *)

Section Conduct.

Context `{Transport} `{Schema}.

Lemma Sprintf_containers_id (id : string) :
  Sprintf "/api/containers/%s" [a_string id] = "/api/containers/" ++ id.
Proof.
  cbn. now rewrite append_empty_r.
Qed.

Lemma Sprintf_engines_id (id : string) :
  Sprintf "/api/engines/%s" [a_string id] = "/api/engines/" ++ id.
Proof.
  cbn. now rewrite append_empty_r.
Qed.

Lemma Sprintf_roles_name (name : string) :
  Sprintf "/api/roles/%s" [a_string name] = "/api/roles/" ++ name.
Proof.
  cbn. now rewrite append_empty_r.
Qed.

Lemma Sprintf_run_query (count : Z) (pull : bool) :
  Sprintf "/api/containers?count=%d&pull=%v" [a_int count; a_bool pull]
  = "/api/containers?count=" ++ itoa count ++ "&pull=" ++ bool_text pull.
Proof.
  cbn [Sprintf Ascii.eqb Bool.eqb format_operand operand_default append].
  unfold bool_text. now rewrite append_empty_r.
Qed.

(** Whatever follows [doRequest] in an operation follows one of its three
    ways out. *)
Lemma bind_doRequest_run {B : Type}
  (path method : string) (expectedStatus : Z) (b : bytes)
  (k : ptr Response * option error -> M B) (w : World) :
  bind (doRequest path method expectedStatus b) k w =
  match config (self w) with
  | None => (panics, w)
  | Some cfg =>
      match NewRequest_check method (Url cfg ++ path) with
      | Some err => k (None, Some err) w
      | None =>
          k (spec_verdict expectedStatus
               (RoundTrip (wire w) (spec_request cfg path method b)))
            {| self := self w; wire := wire w ++ [spec_request cfg path method b] |}
      end
  end.
Proof.
  unfold bind. rewrite doRequest_run.
  destruct (config (self w)) as [cfg|]; [|reflexivity].
  destruct (NewRequest_check method (Url cfg ++ path)); reflexivity.
Qed.

Ltac follow_plan :=
  repeat match goal with
         | |- context [@Marshal ?T ?I ?x] =>
             destruct (@Marshal T I x) as [? [?|]]; cbv beta iota
         end;
  try solve [cbn; reflexivity];
  repeat match goal with
         | |- context [deref ?p] =>
             destruct p; rewrite ?bind_deref; try solve [cbn; reflexivity]
         end;
  rewrite ?bind_doRequest_run;
  rewrite ?Sprintf_containers_id, ?Sprintf_engines_id, ?Sprintf_roles_name, ?Sprintf_run_query;
  cbn [carry_out];
  match goal with
  | |- context [config (self ?w)] => destruct (config (self w)); [|reflexivity]
  end;
  match goal with
  | |- context [NewRequest_check ?m ?u] => destruct (NewRequest_check m u); [reflexivity|]
  end;
  cbv zeta;
  match goal with
  | |- context [spec_verdict ?s ?r] => destruct (spec_verdict s r) as [[?|] [?|]]
  end;
  try reflexivity;
  unfold finish_value, finish_list, bind, deref, ptr;
  match goal with
  | |- context [@Decode ?T ?I ?r ?v] => destruct (@Decode T I r v) as [? [?|]]
  end;
  reflexivity.

(** What the caller sees of an operation, and the state it leaves, are
    those of its plan carried out. *)
Lemma report_run (op : operation) (w : World) :
  (report op w, world_after op w) = carry_out (plan_of op) w.
Proof.
  destruct op; cbn [report world_after plan_of].
  all: unfold Containers, Run, Destroy, Engines, AddEngine, RemoveEngine, GetContainer,
         GetEngine, Info, Events, Accounts, Roles, Role, AddAccount, DeleteAccount,
         Login, ChangePassword, ServiceKeys, NewServiceKey, RemoveServiceKey, encoded.
  all: cbv zeta.
  all: follow_plan.
Qed.

Lemma report_plan (op : operation) (w : World) :
  report op w = fst (carry_out (plan_of op) w).
Proof.
  now rewrite <- report_run.
Qed.

Lemma world_plan (op : operation) (w : World) :
  world_after op w = snd (carry_out (plan_of op) w).
Proof.
  now rewrite <- report_run.
Qed.

Lemma plan_status (op : operation) (path method : string) (status : Z) (b : bytes)
  (finish : ptr Response -> outcome (bool * option error)) :
  plan_of op = Send path method status b finish -> status = op_status op.
Proof.
  destruct op; cbn [plan_of op_status]; unfold encoded.
  all: repeat match goal with
              | |- context [@Marshal ?T ?I ?x] => destruct (@Marshal T I x) as [? [?|]]
              | |- context [match ?p with Some _ => _ | None => _ end] => destruct p
              end.
  all: intro E; now inversion E.
Qed.

(** Each way to finish gives a nil value whenever it gives an error. *)
Lemma plan_finish_nil (op : operation) (path method : string) (status : Z) (b : bytes)
  (finish : ptr Response -> outcome (bool * option error)) :
  plan_of op = Send path method status b finish ->
  forall r isnil err, finish r = returns (isnil, Some err) -> isnil = true.
Proof.
  destruct op; cbn [plan_of]; unfold encoded.
  all: repeat match goal with
              | |- context [@Marshal ?T ?I ?x] => destruct (@Marshal T I x) as [? [?|]]
              | |- context [match ?p with Some _ => _ | None => _ end] => destruct p
              end.
  all: intro E; inversion E; subst; clear E.
  all: intros [resp|] isnil err; unfold finish_command, finish_list, finish_value; try discriminate.
  all: unfold seen_list, seen_value, decoded_list, decoded_value.
  all: try match goal with
           | |- context [@Decode ?T ?I ?r ?v] => destruct (@Decode T I r v) as [? [?|]]
           end.
  all: cbn; intro E; inversion E; reflexivity.
Qed.

Lemma verdict_nil_error (expectedStatus : Z) (r : Response + error) (resp : ptr Response) :
  spec_verdict expectedStatus r = (resp, None) ->
  exists resp', r = inl resp' /\ resp = Some resp'
                /\ StatusCode resp' = expectedStatus /\ StatusCode resp' <> 401.
Proof.
  unfold spec_verdict. destruct r as [resp'|err]; [|discriminate].
  destruct (StatusCode resp' =? 401) eqn:E401; [discriminate|].
  destruct (StatusCode resp' =? expectedStatus) eqn:Eexp.
  - intro E. inversion E. exists resp'.
    apply Z.eqb_eq in Eexp. apply Z.eqb_neq in E401. auto.
  - destruct (fault (Body resp')); discriminate.
Qed.

(** What [sends] tells of an operation: its plan was to send, there was a
    configuration, and the request was accepted and is the prescribed one. *)
Lemma sends_inv (op : operation) (w : World) (req : Request) :
  sends op w req ->
  exists path method b finish cfg,
    plan_of op = Send path method (op_status op) b finish /\
    config (self w) = Some cfg /\
    NewRequest_check method (Url cfg ++ path) = None /\
    req = spec_request cfg path method b /\
    report op w =
      match spec_verdict (op_status op) (RoundTrip (wire w) req) with
      | (_, Some err) => returns (true, Some err)
      | (resp, None) => finish resp
      end.
Proof.
  unfold sends. rewrite world_plan, report_plan.
  destruct (plan_of op) as [err| |path method status b finish] eqn:Hplan; cbn.
  1, 2: intro E; now apply app_one_neq in E.
  pose proof (plan_status _ Hplan) as Hst. subst status.
  destruct (config (self w)) as [cfg|]; cbn.
  2: intro E; now apply app_one_neq in E.
  destruct (NewRequest_check method (Url cfg ++ path)) eqn:Hchk; cbn.
  1: intro E; now apply app_one_neq in E.
  intro E. apply app_one_inj in E. subst req.
  exists path, method, b, finish, cfg. auto.
Qed.

(** ** What no operation does *)

(** X1.  An operation hands at most one request to the transport, after
    the ones sent before, which stay as they were: nothing is retried and
    nothing is sent twice. *)
Theorem operations_send_at_most_once (op : operation) (w : World) :
  exists sent : list Request,
    wire (world_after op w) = (wire w ++ sent)%list /\ (List.length sent <= 1)%nat.
Proof.
  rewrite world_plan.
  destruct (plan_of op) as [err| |path method status b finish]; cbn.
  1, 2: exists []; rewrite app_nil_r; auto.
  destruct (config (self w)) as [cfg|]; cbn.
  2: exists []; rewrite app_nil_r; auto.
  destruct (NewRequest_check method (Url cfg ++ path)); cbn.
  - exists []. rewrite app_nil_r. auto.
  - eexists. split; [reflexivity|]. cbn. lia.
Qed.

(** X2.  An operation called on a manager without configuration sends
    nothing; it panics, unless encoding its argument failed first, in which
    case it returns an error: it never succeeds. *)
Theorem missing_configuration_sends_nothing (op : operation) (w : World) :
  config (self w) = None ->
  world_after op w = w
  /\ (report op w = panics \/ exists err, report op w = returns (true, Some err)).
Proof.
  intro Hcfg. rewrite world_plan, report_plan.
  destruct (plan_of op) as [err| |path method status b finish]; cbn; eauto.
  rewrite Hcfg. cbn. auto.
Qed.

(** X3.  With a configuration and no nil argument, no operation panics,
    whatever the transport answers. *)
Theorem operations_do_not_panic (op : operation) (w : World) :
  config (self w) <> None ->
  nil_argument op = false ->
  report op w <> panics.
Proof.
  intros Hcfg Hnil. rewrite report_plan.
  destruct (plan_of op) as [err| |path method status b finish] eqn:Hplan; cbn.
  - discriminate.
  - exfalso. destruct op; cbn [plan_of nil_argument] in *; unfold encoded in *.
    all: repeat match type of Hplan with
                | context [@Marshal ?T ?I ?x] => destruct (@Marshal T I x) as [? [?|]]
                | context [match ?p with Some _ => _ | None => _ end] => destruct p
                end.
    all: discriminate.
  - destruct (config (self w)) as [cfg|]; [|congruence]. clear Hcfg.
    destruct (NewRequest_check method (Url cfg ++ path)); cbn; [discriminate|].
    destruct (spec_verdict status (RoundTrip (wire w) (spec_request cfg path method b)))
      as [resp [err|]] eqn:Hv; [discriminate|].
    apply verdict_nil_error in Hv. destruct Hv as (resp' & _ & -> & _).
    destruct op; cbn [plan_of] in Hplan; unfold encoded in Hplan.
    all: repeat match type of Hplan with
                | context [@Marshal ?T ?I ?x] => destruct (@Marshal T I x) as [? [?|]]
                | context [match ?p with Some _ => _ | None => _ end] => destruct p
                end.
    all: inversion Hplan; subst; discriminate.
Qed.

(** X4.  [Destroy] of a nil container and [RemoveEngine] of a nil engine,
    or of an engine whose [Engine] field is nil, panic before anything is
    sent. *)
Theorem nil_arguments_panic_before_sending (op : operation) (w : World) :
  nil_argument op = true ->
  report op w = panics /\ world_after op w = w.
Proof.
  intro Hnil. rewrite report_plan, world_plan.
  destruct op; cbn [nil_argument] in Hnil; try discriminate; cbn [plan_of].
  - match goal with
    | c : ptr citadel_Container |- _ => destruct c; [discriminate|]
    end.
    cbn. auto.
  - match goal with
    | p : ptr shipyard_Engine |- _ => destruct p as [e|]; [|cbn; auto]
    end.
    destruct (Engine_Engine e); [discriminate|]. cbn. auto.
Qed.

(** ** Failures before the answer *)

(** X5.  An operation whose argument cannot be encoded returns the
    encoder's error and sends nothing, whatever the configuration. *)
Theorem encoding_failure_sends_nothing (op : operation) (w : World) (err : error) :
  plan_of op = Abort err ->
  report op w = returns (true, Some err) /\ world_after op w = w.
Proof.
  intro Hplan. rewrite report_plan, world_plan, Hplan. cbn. auto.
Qed.

(** X6.  An operation whose request [http.NewRequest] rejects returns that
    error with a nil value and sends nothing. *)
Theorem rejected_request_is_reported (op : operation) (w : World) (cfg : ShipyardConfig)
  (path method : string) (status : Z) (b : bytes)
  (finish : ptr Response -> outcome (bool * option error)) (err : error) :
  config (self w) = Some cfg ->
  plan_of op = Send path method status b finish ->
  NewRequest_check method (Url cfg ++ path) = Some err ->
  report op w = returns (true, Some err) /\ world_after op w = w.
Proof.
  intros Hcfg Hplan Hchk. rewrite report_plan, world_plan, Hplan. cbn.
  rewrite Hcfg, Hchk. cbn. auto.
Qed.

(** X7.  Each operation sends the request of its plan: the path appended
    to the base URL as it is (identifiers and names are put into the path
    without escaping), the method, the encoded argument as body, and the
    one authentication header; the status it then expects is the one of
    the operation. *)
Theorem operations_send_planned_request (op : operation) (w : World) (cfg : ShipyardConfig)
  (path method : string) (status : Z) (b : bytes)
  (finish : ptr Response -> outcome (bool * option error)) :
  config (self w) = Some cfg ->
  plan_of op = Send path method status b finish ->
  NewRequest_check method (Url cfg ++ path) = None ->
  sends op w {| Method := method; URL := Url cfg ++ path;
                Header := [spec_auth_header cfg]; ReqBody := b |}
  /\ status = op_status op.
Proof.
  intros Hcfg Hplan Hchk. split; [|exact (plan_status _ Hplan)].
  unfold sends. rewrite world_plan, Hplan. cbn. rewrite Hcfg, Hchk. reflexivity.
Qed.

(** X8.  When the transport fails on the request of an operation, the
    operation returns the transport's error unchanged, with a nil value. *)
Theorem transport_failure_is_reported (op : operation) (w : World) (req : Request)
  (err : error) :
  sends op w req ->
  RoundTrip (wire w) req = inr err ->
  report op w = returns (true, Some err).
Proof.
  intros Hsends Hrt.
  destruct (sends_inv Hsends) as (path & method & b & finish & cfg & _ & _ & _ & _ & Hrep).
  rewrite Hrep, Hrt. reflexivity.
Qed.

(** ** Failures in the answer *)

(** X9.  When the request of an operation is answered with status 401, the
    operation returns [ErrUnauthorized] with a nil value, whatever the
    operation and whatever the body. *)
Theorem unauthorized_is_reported (op : operation) (w : World) (req : Request)
  (resp : Response) :
  sends op w req ->
  RoundTrip (wire w) req = inl resp ->
  StatusCode resp = 401 ->
  report op w = returns (true, Some ErrUnauthorized).
Proof.
  intros Hsends Hrt Hst.
  destruct (sends_inv Hsends) as (path & method & b & finish & cfg & _ & _ & _ & _ & Hrep).
  rewrite Hrep, Hrt, verdict_unauthorized by assumption. reflexivity.
Qed.

(** X10.  When the request of an operation is answered with a status that
    is neither 401 nor the one the operation expects, the operation returns
    a nil value and an error: the one made from the text of the body, or
    the read error when the body cannot be read to its end.  In particular
    statuses 200, 201 and 204 are failures for the operations that expect
    another of them. *)
Theorem unexpected_status_is_reported (op : operation) (w : World) (req : Request)
  (resp : Response) :
  sends op w req ->
  RoundTrip (wire w) req = inl resp ->
  StatusCode resp <> 401 ->
  StatusCode resp <> op_status op ->
  report op w =
  returns (true,
           Some match fault (Body resp) with
                | Some err => err
                | None => errors_New (string_of_list_byte (pending (Body resp)))
                end).
Proof.
  intros Hsends Hrt N1 N2.
  destruct (sends_inv Hsends) as (path & method & b & finish & cfg & _ & _ & _ & _ & Hrep).
  rewrite Hrep, Hrt, verdict_unexpected by assumption.
  destruct (fault (Body resp)); reflexivity.
Qed.

(** X11.  An operation returns a nil error only if it sent its request and
    the transport answered it with the status the operation expects. *)
Theorem success_needs_expected_status (op : operation) (w : World) (isnil : bool) :
  report op w = returns (isnil, None) ->
  exists req resp,
    sends op w req /\
    RoundTrip (wire w) req = inl resp /\
    StatusCode resp = op_status op.
Proof.
  unfold sends. rewrite report_plan, world_plan.
  destruct (plan_of op) as [err| |path method status b finish] eqn:Hplan; cbn;
    try discriminate.
  pose proof (plan_status _ Hplan) as Hst. subst status.
  destruct (config (self w)) as [cfg|]; cbn; [|discriminate].
  destruct (NewRequest_check method (Url cfg ++ path)); cbn; [discriminate|].
  destruct (spec_verdict (op_status op) (RoundTrip (wire w) (spec_request cfg path method b)))
    as [r [err|]] eqn:Hv; [discriminate|].
  apply verdict_nil_error in Hv. destruct Hv as (resp & Hrt & _ & Hst & _).
  intros _. exists (spec_request cfg path method b), resp. auto.
Qed.

(** X12.  Whenever an operation returns an error, the value it returns
    with it is nil: no list or record decoded in part comes with an error. *)
Theorem error_comes_with_nil_value (op : operation) (w : World) (isnil : bool) (err : error) :
  report op w = returns (isnil, Some err) ->
  isnil = true.
Proof.
  rewrite report_plan.
  destruct (plan_of op) as [e| |path method status b finish] eqn:Hplan; cbn.
  - intro E. now inversion E.
  - discriminate.
  - destruct (config (self w)) as [cfg|]; cbn; [|discriminate].
    destruct (NewRequest_check method (Url cfg ++ path)); cbn.
    + intro E. now inversion E.
    + destruct (spec_verdict status (RoundTrip (wire w) (spec_request cfg path method b)))
        as [r [e|]].
      * intro E. now inversion E.
      * apply (plan_finish_nil _ Hplan).
Qed.

End Conduct.

(** ** What the executor's success means *)

Section Success.

Context `{Transport}.

(** X13.  [doRequest] returns a nil error only when the request was sent
    and answered with exactly the expected status, and then together with
    that response; it never does for status 401, so a caller that expects
    401 never sees success. *)
Theorem doRequest_success_needs_expected_status
  (path method : string) (expectedStatus : Z) (b : bytes) (w : World) (r : ptr Response) :
  fst (doRequest path method expectedStatus b w) = returns (r, None) ->
  exists req resp,
    answered (doRequest path method expectedStatus b) w req resp /\
    r = Some resp /\
    StatusCode resp = expectedStatus /\
    expectedStatus <> 401.
Proof.
  unfold answered. rewrite doRequest_run.
  destruct (config (self w)) as [cfg|]; cbn; [|discriminate].
  destruct (NewRequest_check method (Url cfg ++ path)); cbn; [discriminate|].
  intro E. inversion E as [Hv]. apply verdict_nil_error in Hv.
  destruct Hv as (resp & Hrt & -> & Hst & Hno).
  exists (spec_request cfg path method b), resp.
  repeat split; auto. congruence.
Qed.

End Success.

(** ** What the operations decode *)

Section Values.

Context `{Transport} `{Schema}.

Ltac silent_cont :=
  unfold silent; intros [r [e|]] w0; [reflexivity|];
  destruct r as [resp0|]; [|reflexivity];
  cbn; try reflexivity;
  match goal with
  | |- context [@Decode ?T ?I ?r ?v] => destruct (@Decode T I r v) as [? [?|]]
  end; reflexivity.

Ltac prelude Hans :=
  repeat first
    [ match type of Hans with
      | answered (let (_, _) := ?m in _) _ _ _ =>
          destruct m as [? [?|]]; [now apply answered_ret in Hans|]
      end
    | match type of Hans with
      | answered (bind (deref ?p) _) _ _ _ =>
          let x := fresh "x" in
          let E := fresh "E" in
          apply answered_deref in Hans; destruct Hans as (x & E & Hans);
          rewrite E; rewrite bind_deref
      end ].

Ltac after_request Hans :=
  match type of Hans with
  | answered (bind _ ?k) _ _ _ =>
      let Hk := fresh "Hk" in
      assert (Hk : silent k) by silent_cont;
      refine (eq_trans (bind_doRequest_answered Hk Hans) _)
  end.

(** An operation that returns one value and whose request was answered with
    status 200 returns what decoding the body into its variable gives. *)
Lemma fetch_call_answered (f : fetch) (w : World) (req : Request) (resp : Response) :
  answered (fetch_call f) w req resp ->
  StatusCode resp = 200 ->
  fst (fetch_call f w) = returns (decoded_value (Decode (Body resp) (fetch_variable f))).
Proof.
  intros Hans Hst.
  assert (Hno : StatusCode resp <> 401) by (rewrite Hst; discriminate).
  destruct f; cbn [fetch_call fetch_variable fetched] in *.
  all: unfold GetContainer, GetEngine, Info, Role, Login, NewServiceKey in *.
  all: cbv zeta in *.
  all: prelude Hans.
  all: after_request Hans.
  all: rewrite verdict_expected by assumption.
  all: cbn.
  all: match goal with
       | |- context [@Decode ?T ?I ?r ?v] => destruct (@Decode T I r v) as [? [?|]]
       end; reflexivity.
Qed.

Lemma Decode_null_value {T : Type} `{Unmarshaler T} (r : Reader) (v : ptr T) (rest : bytes) :
  scan_first (pending r) = scanned JNull rest ->
  fault r = None ->
  Decode r v = (None, None).
Proof.
  intros E F. unfold Decode. rewrite E, F. destruct rest; reflexivity.
Qed.

Lemma Decode_null_list {T : Type} `{Unmarshaler T} (r : Reader) (v : slice T) (rest : bytes) :
  scan_first (pending r) = scanned JNull rest ->
  fault r = None ->
  Decode r v = (nil_slice, None).
Proof.
  intros E F. unfold Decode. rewrite E, F. destruct rest; reflexivity.
Qed.

Lemma Decode_object {T : Type} `{Unmarshaler T} (r : Reader) (v : ptr T)
  (ms : list (bytes * JSON)) (rest : bytes) :
  scan_first (pending r) = scanned (JObject ms) rest ->
  v = None \/ v = Some zero ->
  Decode r v =
  match unmarshal (JObject ms) zero with
  | inl x => (Some x, None)
  | inr err => (v, Some err)
  end.
Proof.
  intros E Hv. unfold Decode. rewrite E.
  assert (Hu : unmarshal (JObject ms) v =
               match unmarshal (JObject ms) zero with
               | inl x => inl (Some x)
               | inr err => inr err
               end).
  { destruct Hv; subst v; reflexivity. }
  cbn [is_scalar]. destruct rest; rewrite Hu;
    destruct (unmarshal (JObject ms) zero); reflexivity.
Qed.


(** X14.  [GetContainer], [GetEngine], [Info], [Role], [Login] and
    [NewServiceKey], answered 200 with a body whose JSON value is [null],
    return a nil value and a nil error, [Role] too, although it decodes
    into a record it allocated. *)
Theorem null_body_gives_nil_value (f : fetch) (w : World) (req : Request) (resp : Response)
  (rest : bytes) :
  answered (fetch_call f) w req resp ->
  StatusCode resp = 200 ->
  scan_first (pending (Body resp)) = scanned JNull rest ->
  fault (Body resp) = None ->
  fst (fetch_call f w) = returns (None, None).
Proof.
  intros Hans Hst Hscan Hread.
  rewrite (@fetch_call_answered f w req resp Hans Hst).
  now rewrite (@Decode_null_value _ _ (Body resp) (fetch_variable f) rest Hscan Hread).
Qed.

(** X15.  The same operations, answered 200 with a body that begins with a
    JSON object, return the record the object is stored into, starting
    from a zero value, or a nil value and the error of storing it; what
    follows the object is not looked at. *)
Theorem object_body_gives_record (f : fetch) (w : World) (req : Request) (resp : Response)
  (ms : list (bytes * JSON)) (rest : bytes) :
  answered (fetch_call f) w req resp ->
  StatusCode resp = 200 ->
  scan_first (pending (Body resp)) = scanned (JObject ms) rest ->
  fst (fetch_call f w) =
  returns match unmarshal (JObject ms) (zero : fetched f) with
          | inl x => (Some x, None)
          | inr err => (None, Some err)
          end.
Proof.
  intros Hans Hst Hscan.
  rewrite (@fetch_call_answered f w req resp Hans Hst).
  rewrite (@Decode_object _ _ (Body resp) (fetch_variable f) ms rest Hscan).
  - destruct (unmarshal (JObject ms) zero); reflexivity.
  - destruct f; cbn; auto.
Qed.

(** X16.  The same operations, answered 200 with a body that is empty or
    does not begin with a complete well-formed JSON value, return a nil
    value and an error. *)
Theorem body_without_value_fails (f : fetch) (w : World) (req : Request) (resp : Response) :
  answered (fetch_call f) w req resp ->
  StatusCode resp = 200 ->
  scan_first (pending (Body resp)) = scan_more
  \/ scan_first (pending (Body resp)) = scan_invalid ->
  exists err, fst (fetch_call f w) = returns (None, Some err).
Proof.
  intros Hans Hst Hscan.
  rewrite (@fetch_call_answered f w req resp Hans Hst).
  destruct (Decode_no_value (Body resp) (fetch_variable f) Hscan) as [err Herr].
  exists err. now rewrite Herr.
Qed.

(** X17.  A list operation answered with its expected status and a body
    whose JSON value is [null] returns a nil slice and a nil error: the
    empty slice it starts from does not survive. *)
Theorem null_body_gives_nil_list (l : listing) (w : World) (req : Request) (resp : Response)
  (rest : bytes) :
  answered (list_call l) w req resp ->
  StatusCode resp = list_status l ->
  scan_first (pending (Body resp)) = scanned JNull rest ->
  fault (Body resp) = None ->
  fst (list_call l w) = returns (nil_slice, None).
Proof.
  intros Hans Hst Hscan Hread.
  rewrite (@list_call_answered _ _ l w req resp Hans Hst).
  now rewrite (@Decode_null_list _ _ (Body resp) (list_variable l) rest Hscan Hread).
Qed.

(** X18.  Every list operation answered with its expected status and a
    body that begins with a JSON array returns one element for each
    element of the array, each stored into a fresh nil pointer, in the
    order of the array. *)
Theorem lists_keep_order (l : listing) (w : World) (req : Request) (resp : Response)
  (js : list JSON) (rest : bytes) (xs : list (ptr (listed l))) :
  answered (list_call l) w req resp ->
  StatusCode resp = list_status l ->
  scan_first (pending (Body resp)) = scanned (JArray js) rest ->
  Forall2 (fun j x => unmarshal j (None : ptr (listed l)) = inl x) js xs ->
  fst (list_call l w) = returns (mk_slice xs, None).
Proof.
  intros Hans Hst Hscan Hall.
  rewrite (@list_call_answered _ _ l w req resp Hans Hst).
  rewrite (@Decode_array _ _ (Body resp) (list_variable l) js rest xs Hscan); [reflexivity| |exact Hall].
  destruct l; cbn; auto.
Qed.


End Values.

(** ** Further scenarios *)

Import Faults.

(** Listing containers with a client that has no configuration. *)
Lemma missing_configuration_sends_nothing_witness :
  @world_after (server (fun _ => inl (response 200 "[]"))) schema OpContainers unconfigured
  = unconfigured
  /\ (@report (server (fun _ => inl (response 200 "[]"))) schema OpContainers unconfigured
      = panics
      \/ exists err,
           @report (server (fun _ => inl (response 200 "[]"))) schema OpContainers unconfigured
           = returns (true, Some err)).
Proof.
  apply (@missing_configuration_sends_nothing
           (server (fun _ => inl (response 200 "[]"))) schema OpContainers unconfigured).
  reflexivity.
Defined.

(** Destroying a container that is there. *)
Lemma operations_do_not_panic_witness :
  @report (server (fun _ => inl (response 204 EmptyString))) schema
    (@OpDestroy schema (Some {| ID := "x1" |})) (client by_token)
  <> panics.
Proof.
  apply (@operations_do_not_panic
           (server (fun _ => inl (response 204 EmptyString))) schema
           (@OpDestroy schema (Some {| ID := "x1" |})) (client by_token)).
  - discriminate.
  - reflexivity.
Defined.

(** Removing an engine that does not know its cluster engine. *)
Lemma nil_arguments_panic_before_sending_witness :
  @report (server (fun _ => inl (response 204 EmptyString))) schema
    (@OpRemoveEngine schema (Some {| Engine := None |})) (client by_token)
  = panics
  /\ @world_after (server (fun _ => inl (response 204 EmptyString))) schema
       (@OpRemoveEngine schema (Some {| Engine := None |})) (client by_token)
     = client by_token.
Proof.
  apply (@nil_arguments_panic_before_sending
           (server (fun _ => inl (response 204 EmptyString))) schema
           (@OpRemoveEngine schema (Some {| Engine := None |})) (client by_token)).
  reflexivity.
Defined.

(** Running an image that cannot be encoded. *)
Lemma encoding_failure_sends_nothing_witness :
  @report (server (fun _ => inl (response 201 "[]"))) unencodable_image
    (@OpRun unencodable_image (Some nginx) 3 true) (client by_token)
  = returns (true, Some (foreign "json: unsupported value: NaN"))
  /\ @world_after (server (fun _ => inl (response 201 "[]"))) unencodable_image
       (@OpRun unencodable_image (Some nginx) 3 true) (client by_token)
     = client by_token.
Proof.
  apply (@encoding_failure_sends_nothing
           (server (fun _ => inl (response 201 "[]"))) unencodable_image
           (@OpRun unencodable_image (Some nginx) 3 true) (client by_token)).
  reflexivity.
Defined.

(** Listing containers with a base URL that lacks its scheme. *)
Lemma rejected_request_is_reported_witness :
  @report (strict_server (fun _ => inl (response 200 "[]"))) schema OpContainers
    (client no_scheme)
  = returns (true, Some (foreign "missing protocol scheme"))
  /\ @world_after (strict_server (fun _ => inl (response 200 "[]"))) schema OpContainers
       (client no_scheme)
     = client no_scheme.
Proof.
  apply (@rejected_request_is_reported
           (strict_server (fun _ => inl (response 200 "[]"))) schema OpContainers
           (client no_scheme) no_scheme
           "/api/containers" "GET" 200 []
           (@finish_list (ptr container) (@ptr_Unmarshaler container container_Unmarshaler)
              (mk_slice []))).
  - reflexivity.
  - reflexivity.
  - reflexivity.
Defined.

(** Fetching a role whose name holds a slash and a question mark: they go
    into the URL as they are. *)
Lemma operations_send_planned_request_witness :
  @sends (server (fun _ => inl (response 200 "{}"))) schema
    (@OpRole schema "ops/admin?x=1") (client by_service_key)
    {| Method := "GET";
       URL := "http://shipyard:8080/api/roles/ops/admin?x=1";
       Header := [("X-Service-Key", "k-42")];
       ReqBody := [] |}
  /\ 200 = @op_status schema (@OpRole schema "ops/admin?x=1").
Proof.
  apply (@operations_send_planned_request
           (server (fun _ => inl (response 200 "{}"))) schema
           (@OpRole schema "ops/admin?x=1") (client by_service_key) by_service_key
           "/api/roles/ops/admin?x=1" "GET" 200 []
           (@finish_value opaque opaque_Unmarshaler (Some Build_opaque))).
  - reflexivity.
  - reflexivity.
  - reflexivity.
Defined.

(** Logging in while the server cannot be reached. *)
Lemma transport_failure_is_reported_witness :
  @report (server (fun _ => inr (foreign "connection refused"))) schema
    (@OpLogin schema "alice" "secret") (client by_token)
  = returns (true, Some (foreign "connection refused")).
Proof.
  apply (@transport_failure_is_reported
           (server (fun _ => inr (foreign "connection refused"))) schema
           (@OpLogin schema "alice" "secret") (client by_token)
           (spec_request by_token "/auth/login" "POST"
              (json_text "{'password':'secret','username':'alice'}"))).
  - reflexivity.
  - reflexivity.
Defined.

(** Logging in, answered 401. *)
Lemma unauthorized_is_reported_witness :
  @report (server (fun _ => inl (response 401 "bad credentials"))) schema
    (@OpLogin schema "alice" "secret") (client by_token)
  = returns (true, Some ErrUnauthorized).
Proof.
  apply (@unauthorized_is_reported
           (server (fun _ => inl (response 401 "bad credentials"))) schema
           (@OpLogin schema "alice" "secret") (client by_token)
           (spec_request by_token "/auth/login" "POST"
              (json_text "{'password':'secret','username':'alice'}"))
           (response 401 "bad credentials")).
  - reflexivity.
  - reflexivity.
  - reflexivity.
Defined.

(** Adding an account, answered 201 where 204 is expected: a failure whose
    text is the body. *)
Lemma unexpected_status_is_reported_witness :
  @report (server (fun _ => inl (response 201 "created"))) schema
    (@OpAddAccount schema (Some Build_opaque)) (client by_token)
  = returns (true, Some (errors_New "created")).
Proof.
  apply (@unexpected_status_is_reported
           (server (fun _ => inl (response 201 "created"))) schema
           (@OpAddAccount schema (Some Build_opaque)) (client by_token)
           (spec_request by_token "/api/accounts" "POST" (json_text "{}"))
           (response 201 "created")).
  - reflexivity.
  - reflexivity.
  - discriminate.
  - discriminate.
Defined.

(** Listing engines, answered 200 with an empty list. *)
Lemma success_needs_expected_status_witness :
  exists req resp,
    @sends (server (fun _ => inl (response 200 "[]"))) schema OpEngines (client by_token) req
    /\ @RoundTrip (server (fun _ => inl (response 200 "[]"))) (wire (client by_token)) req
       = inl resp
    /\ StatusCode resp = @op_status schema OpEngines.
Proof.
  apply (@success_needs_expected_status
           (server (fun _ => inl (response 200 "[]"))) schema OpEngines (client by_token) false).
  reflexivity.
Defined.

(** Listing containers, answered 200 with a list whose second element is
    not a container: nothing of the list is returned. *)
Lemma error_comes_with_nil_value_witness :
  @report (server (fun _ => inl (response 200 "[{'id':'a'},7]"))) schema OpContainers
    (client by_token)
  = returns (true, Some (json_UnmarshalTypeError "number"))
  /\ true = true.
Proof.
  split; [reflexivity|].
  apply (@error_comes_with_nil_value
           (server (fun _ => inl (response 200 "[{'id':'a'},7]"))) schema OpContainers
           (client by_token) true (json_UnmarshalTypeError "number")).
  reflexivity.
Defined.

(** A deletion answered 204. *)
Lemma doRequest_success_needs_expected_status_witness :
  exists req resp,
    @answered (server (fun _ => inl (response 204 EmptyString))) _
      (@doRequest (server (fun _ => inl (response 204 EmptyString)))
         "/api/accounts" "DELETE" 204 (json_text "{}"))
      (client by_token) req resp
    /\ Some (response 204 EmptyString) = Some resp
    /\ StatusCode resp = 204
    /\ 204 <> 401.
Proof.
  apply (@doRequest_success_needs_expected_status
           (server (fun _ => inl (response 204 EmptyString)))
           "/api/accounts" "DELETE" 204 (json_text "{}") (client by_token)
           (Some (response 204 EmptyString))).
  reflexivity.
Defined.

(** Fetching a container, answered 200 with [null]. *)
Lemma null_body_gives_nil_value_witness :
  fst (@GetContainer (server (fun _ => inl (response 200 "null"))) schema "x1"
         (client by_token))
  = returns (None, None).
Proof.
  apply (@null_body_gives_nil_value
           (server (fun _ => inl (response 200 "null"))) schema
           (@FetchContainer "x1") (client by_token)
           (spec_request by_token "/api/containers/x1" "GET" [])
           (response 200 "null") []).
  - split; reflexivity.
  - reflexivity.
  - reflexivity.
  - reflexivity.
Defined.

(** Fetching a container, answered 200 with the container and a stray
    brace after it. *)
Lemma object_body_gives_record_witness :
  fst (@GetContainer (server (fun _ => inl (response 200 "{'id':'x1'}}"))) schema "x1"
         (client by_token))
  = returns (Some {| ID := "x1" |}, None).
Proof.
  apply (@object_body_gives_record
           (server (fun _ => inl (response 200 "{'id':'x1'}}"))) schema
           (@FetchContainer "x1") (client by_token)
           (spec_request by_token "/api/containers/x1" "GET" [])
           (response 200 "{'id':'x1'}}")
           [(list_byte_of_string "id", JString (list_byte_of_string "x1"))]
           (list_byte_of_string "}")).
  - split; reflexivity.
  - reflexivity.
  - reflexivity.
Defined.

(** Fetching the cluster information, answered 200 with no body. *)
Lemma body_without_value_fails_witness :
  exists err,
    fst (@Info (server (fun _ => inl (response 200 EmptyString))) schema (client by_token))
    = returns (None, Some err).
Proof.
  apply (@body_without_value_fails
           (server (fun _ => inl (response 200 EmptyString))) schema
           (@FetchInfo) (client by_token)
           (spec_request by_token "/api/cluster/info" "GET" [])
           (response 200 EmptyString)).
  - split; reflexivity.
  - reflexivity.
  - left. reflexivity.
Defined.

(** Listing containers, answered 200 with [null]. *)
Lemma null_body_gives_nil_list_witness :
  fst (@Containers (server (fun _ => inl (response 200 "null"))) schema (client by_token))
  = returns (nil_slice, None).
Proof.
  apply (@null_body_gives_nil_list
           (server (fun _ => inl (response 200 "null"))) schema
           (@ListContainers schema) (client by_token)
           (spec_request by_token "/api/containers" "GET" [])
           (response 200 "null") []).
  - split; reflexivity.
  - reflexivity.
  - reflexivity.
  - reflexivity.
Defined.

(** Listing service keys, answered 200 with two keys. *)
Lemma lists_keep_order_witness :
  fst (@ServiceKeys
         (server (fun _ => inl (response 200
            "[{'key':'k1','description':'ci'},{'key':'k2','description':'ops'}]")))
         schema (client by_token))
  = returns (mk_slice [Some {| Key := "k1"; Description := "ci" |};
                       Some {| Key := "k2"; Description := "ops" |}], None).
Proof.
  apply (@lists_keep_order
           (server (fun _ => inl (response 200
              "[{'key':'k1','description':'ci'},{'key':'k2','description':'ops'}]")))
           schema (@ListServiceKeys schema) (client by_token)
           (spec_request by_token "/api/servicekeys" "GET" [])
           (response 200 "[{'key':'k1','description':'ci'},{'key':'k2','description':'ops'}]")
           [JObject [(list_byte_of_string "key", JString (list_byte_of_string "k1"));
                     (list_byte_of_string "description", JString (list_byte_of_string "ci"))];
            JObject [(list_byte_of_string "key", JString (list_byte_of_string "k2"));
                     (list_byte_of_string "description", JString (list_byte_of_string "ops"))]]
           []).
  - split; reflexivity.
  - reflexivity.
  - reflexivity.
  - repeat constructor.
Defined.

